(** * The structured-summarization pipeline of the interview agent

    A shallow embedding of [app/summarize.py] (response extraction, schema
    coercion, markdown rendering, the summarization entry point) and of
    [app/llm.py] (the cached, fallback-aware model client), with the
    properties of the pipeline stated and proved over it.

    Python values are embedded as follows.
    - A [str] is the list of its Unicode code points ([pystr]), so that
      [len], slicing and [in] are the list operations.
    - A value decoded from JSON is a [pyval]; a [dict] is an association
      list in insertion order.
    - A raised exception is the [Raise] case of [result]; code that talks
      to the cache directory or to the network threads a [world].
    - What CPython or a third-party library supplies (Unicode case mapping
      and digit classes, [str()] of a value, [json.loads], [json.dumps],
      SHA-256) is a field of the class [Runtime]; the theorems hold for
      every runtime, and [ascii_runtime] is the instance on which the
      examples are evaluated. *)

From Stdlib Require Import ZArith NArith List Bool Ascii String Lia.
From stdpp Require Import base tactics option list gmap.
Import ListNotations.

Set Default Proof Using "Type".
Set Warnings "-register-all".
Local Open Scope nat_scope.

(** ** Strings *)

Module Str.

Definition char := N.
Definition pystr := list char.

(** [utf8] reads the bytes of a literal of this file as UTF-8, so that a
    literal denotes the same code points as the Python literal it copies. *)
Fixpoint utf8 (bs : list N) : pystr :=
  match bs with
  | [] => []
  | b0 :: r0 =>
    if (b0 <? 128)%N then b0 :: utf8 r0
    else match r0 with
    | [] => [b0]
    | b1 :: r1 =>
      if (b0 <? 224)%N then ((b0 - 192) * 64 + (b1 - 128))%N :: utf8 r1
      else match r1 with
      | [] => [b0; b1]
      | b2 :: r2 =>
        if (b0 <? 240)%N
        then ((b0 - 224) * 4096 + (b1 - 128) * 64 + (b2 - 128))%N :: utf8 r2
        else match r2 with
        | [] => [b0; b1; b2]
        | b3 :: r3 =>
          ((b0 - 240) * 262144 + (b1 - 128) * 4096
           + (b2 - 128) * 64 + (b3 - 128))%N :: utf8 r3
        end
      end
    end
  end.

Definition lit (s : string) : pystr :=
  utf8 (List.map N_of_ascii (list_ascii_of_string s)).

(** A Rocq literal cannot hold a double quote or a line feed: in [tq] a
    caret stands for the double quote, and [nl] is the line feed. *)
Definition dq : char := 34%N.
Definition nl : pystr := [10%N].
Definition tq (s : string) : pystr :=
  List.map (fun c => if (c =? 94)%N then dq else c) (lit s).

Fixpoint str_eqb (a b : pystr) : bool :=
  match a, b with
  | [], [] => true
  | x :: a', y :: b' => (x =? y)%N && str_eqb a' b'
  | _, _ => false
  end.

(** [str.isspace] of one character: the code points CPython lists in
    [_PyUnicode_IsWhitespace] (bidirectional type WS, B or S, or category
    Zs). The pattern class [\s] of a [str] pattern is the same set. *)
Definition isspace (c : char) : bool :=
  ((9 <=? c) && (c <=? 13) || (28 <=? c) && (c <=? 32)
   || (c =? 133) || (c =? 160) || (c =? 5760)
   || (8192 <=? c) && (c <=? 8202)
   || (c =? 8232) || (c =? 8233) || (c =? 8239) || (c =? 8287)
   || (c =? 12288))%N.

Fixpoint lstrip (s : pystr) : pystr :=
  match s with
  | c :: s' => if isspace c then lstrip s' else s
  | [] => []
  end.

Definition rstrip (s : pystr) : pystr := rev (lstrip (rev s)).
Definition strip (s : pystr) : pystr := rstrip (lstrip s).

(** [s[:n]] and [s[a:b]] for in-range, non-negative bounds; a slice whose
    end is not after its start is empty, as in Python. *)
Definition upto (n : nat) (s : pystr) : pystr := firstn n s.
Definition slice (s : pystr) (a b : nat) : pystr := firstn (b - a) (skipn a s).

Fixpoint starts_with (p s : pystr) : bool :=
  match p, s with
  | [], _ => true
  | x :: p', y :: s' => (x =? y)%N && starts_with p' s'
  | _ :: _, [] => false
  end.

(** [w in t] for strings. *)
Fixpoint contains (w t : pystr) : bool :=
  starts_with w t || match t with [] => false | _ :: t' => contains w t' end.

(** The positions of a character, as [m.start() for m in re.finditer]
    yields them for a one-character pattern. *)
Fixpoint positions_from (i : nat) (c : char) (s : pystr) : list nat :=
  match s with
  | [] => []
  | x :: s' =>
    if (x =? c)%N then i :: positions_from (S i) c s'
    else positions_from (S i) c s'
  end.
Definition positions (c : char) (s : pystr) : list nat := positions_from 0 c s.

(** [str.splitlines()]: the line boundaries of CPython ([\n], [\r],
    [\r\n], [\v], [\f], [\x1c]-[\x1e], [\x85], U+2028, U+2029); no empty
    last line. *)
Definition is_linebreak (c : char) : bool :=
  ((10 <=? c) && (c <=? 13) || (28 <=? c) && (c <=? 30)
   || (c =? 133) || (c =? 8232) || (c =? 8233))%N.

Fixpoint splitlines_aux (cur : pystr) (s : pystr) : list pystr :=
  match s with
  | [] => match cur with [] => [] | _ => [rev cur] end
  | c :: s' =>
    if is_linebreak c then
      rev cur ::
      match c, s' with
      | 13%N, 10%N :: s'' => splitlines_aux [] s''
      | _, _ => splitlines_aux [] s'
      end
    else splitlines_aux (c :: cur) s'
  end.
Definition splitlines (s : pystr) : list pystr := splitlines_aux [] s.

(** ["sep".join(parts)] *)
Fixpoint join (sep : pystr) (parts : list pystr) : pystr :=
  match parts with
  | [] => []
  | [p] => p
  | p :: ps => p ++ sep ++ join sep ps
  end.

End Str.
Export Str.

(** ** Regular expressions

    The two patterns of [summarize.py] are run by a backtracking matcher
    with the priorities of Python's [re]: alternatives left to right,
    greedy repetitions longest first, lazy ones shortest first. A
    repetition ranges over one character class, which is all the two
    patterns need. *)

Module Re.

Inductive regex :=
| Eps
| Cls (p : char -> bool)
| Cat (r1 r2 : regex)
| Alt (r1 r2 : regex)
| Opt (r : regex)
| Star (p : char -> bool)
| Plus (p : char -> bool)
| LazyStar (p : char -> bool)
| Group (r : regex).

Section Matcher.
Context {A : Type}.

Fixpoint star_greedy (p : char -> bool) (s : pystr)
    (k : pystr -> option A) : option A :=
  match s with
  | c :: s' =>
    if p c then
      match star_greedy p s' k with Some x => Some x | None => k s end
    else k s
  | [] => k []
  end.

Fixpoint star_lazy (p : char -> bool) (s : pystr)
    (k : pystr -> option A) : option A :=
  match k s with
  | Some x => Some x
  | None =>
    match s with
    | c :: s' => if p c then star_lazy p s' k else None
    | [] => None
    end
  end.

(** [run r s g k]: match [r] at the front of [s], then continue with [k]
    on the rest and on the text of group 1. *)
Fixpoint run (r : regex) (s : pystr) (g : option pystr)
    (k : pystr -> option pystr -> option A) : option A :=
  match r with
  | Eps => k s g
  | Cls p =>
    match s with c :: s' => if p c then k s' g else None | [] => None end
  | Cat r1 r2 => run r1 s g (fun s' g' => run r2 s' g' k)
  | Alt r1 r2 =>
    match run r1 s g k with Some x => Some x | None => run r2 s g k end
  | Opt r1 =>
    match run r1 s g k with Some x => Some x | None => k s g end
  | Star p => star_greedy p s (fun s' => k s' g)
  | Plus p =>
    match s with
    | c :: s' => if p c then star_greedy p s' (fun s'' => k s'' g) else None
    | [] => None
    end
  | LazyStar p => star_lazy p s (fun s' => k s' g)
  | Group r1 =>
    run r1 s g
      (fun s' _ => k s' (Some (firstn (length s - length s') s)))
  end.
End Matcher.

(** [re.match(r, s)] and [re.search(r, s)], as [m.group(1)] of the match
    found ([None] inside when the group took no part). *)
Definition rmatch (r : regex) (s : pystr) : option (option pystr) :=
  run r s None (fun _ g => Some g).

Fixpoint search (r : regex) (s : pystr) : option (option pystr) :=
  match rmatch r s with
  | Some g => Some g
  | None => match s with [] => None | _ :: s' => search r s' end
  end.

Definition chr (c : N) : regex := Cls (N.eqb c).
Definition one_of (cs : list N) : regex :=
  Cls (fun c => existsb (N.eqb c) cs).
Definition any_char : char -> bool := fun _ => true.
Definition not_newline : char -> bool := fun c => negb (c =? 10)%N.

End Re.

(** ** Values, exceptions *)

Module Py.

(** A float is kept as [m * 2^e], or an infinity or a NaN; the program
    only observes whether it is zero. *)
Inductive pyfloat := FFinite (m e : Z) | FInf (neg : bool) | FNaN.

Inductive pyval :=
| PNone
| PBool (b : bool)
| PInt (z : Z)
| PFloat (f : pyfloat)
| PStr (s : pystr)
| PList (l : list pyval)
| PDict (d : list (pystr * pyval)).

Definition dict := list (pystr * pyval).

Definition truthy (v : pyval) : bool :=
  match v with
  | PNone => false
  | PBool b => b
  | PInt z => negb (z =? 0)%Z
  | PFloat (FFinite m _) => negb (m =? 0)%Z
  | PFloat _ => true
  | PStr s => match s with [] => false | _ => true end
  | PList l => match l with [] => false | _ => true end
  | PDict d => match d with [] => false | _ => true end
  end.

(** [a or b] *)
Definition py_or (a b : pyval) : pyval := if truthy a then a else b.

Definition is_dict (v : pyval) : bool :=
  match v with PDict _ => true | _ => false end.

(** [v == s] for a string literal [s] *)
Definition eq_str (v : pyval) (s : pystr) : bool :=
  match v with PStr t => str_eqb t s | _ => false end.

Fixpoint dict_get {V} (d : list (pystr * V)) (k : pystr) : option V :=
  match d with
  | [] => None
  | (k', v) :: d' => if str_eqb k' k then Some v else dict_get d' k
  end.

(** [d[k] = v]: an existing key keeps its place. *)
Fixpoint dict_set {V} (d : list (pystr * V)) (k : pystr) (v : V)
    : list (pystr * V) :=
  match d with
  | [] => [(k, v)]
  | (k', v') :: d' =>
    if str_eqb k' k then (k', v) :: d' else (k', v') :: dict_set d' k v
  end.

Definition keys {V} (d : list (pystr * V)) : list pystr := List.map fst d.

Inductive exn :=
| AttributeError
| RuntimeError
| ValueError
| OSError
| UnicodeDecodeError
| UnicodeEncodeError
| LibraryError (code : nat).

Inductive result (A : Type) :=
| Ok (a : A)
| Raise (e : exn).
Arguments Ok {A} a.
Arguments Raise {A} e.

Definition bind {A B} (m : result A) (k : A -> result B) : result B :=
  match m with Ok a => k a | Raise e => Raise e end.

Definition is_ok {A} (m : result A) : bool :=
  match m with Ok _ => true | Raise _ => false end.

(** [v.get(k, dflt)]: only a [dict] has the method. *)
Definition py_get_default (v : pyval) (k : pystr) (dflt : pyval)
    : result pyval :=
  match v with
  | PDict d => Ok (match dict_get d k with Some x => x | None => dflt end)
  | _ => Raise AttributeError
  end.

Definition py_get (v : pyval) (k : pystr) : result pyval :=
  py_get_default v k PNone.

(** A text file the code opens for reading: there is no such file, or
    [read] returns a text, or [open] or [read] raises something else
    than [FileNotFoundError] (no permission, a directory, bytes that are
    no UTF-8). *)
Inductive text_file :=
| Missing
| Holds (text : pystr)
| Fails (e : exn).

End Py.
Export Py.

Notation "'let*' x ':=' m 'in' k" := (bind m (fun x => k))
  (at level 10, x name, m at level 100, k at level 200).

(** What the interpreter and the libraries supply. *)
Class Runtime := {
  str_lower : pystr -> pystr;       (* [s.lower()] *)
  str_upper : pystr -> pystr;       (* [s.upper()] *)
  is_decimal : char -> bool;        (* the class [\d] of a [str] pattern *)
  py_str : pyval -> pystr;          (* [str(v)] of a value that is no [str] *)
  json_loads : pystr -> option pyval;   (* [None]: the call raises *)
  json_dumps : list (pystr * pystr) -> pystr;
  sha256_hex : pystr -> pystr;      (* [sha256(s.encode()).hexdigest()] *)
  linesep : pystr;                  (* [os.linesep] *)
}.

(** ** app/config.py

    The settings the pipeline reads; those taken from the process
    environment are fields, so that the theorems hold for every setting. *)

Module Config.

Record config := {
  USE_LLM_SUMMARY : bool;
  SUMMARY_ANSWER_CAP : nat;
  LLM_BACKEND : pystr;
  OPENAI_API_KEY : option pystr;
  OPENAI_MODEL : pystr;
  OPENAI_FALLBACK_MODEL : pystr;
  MISTRAL_API_KEY : option pystr;
  MISTRAL_MODEL : pystr;
}.

End Config.
Export Config.

(** ** app/llm.py *)

Module Llm.

(** A file of the cache directory: its text, as decoded from UTF-8, or a
    file that cannot be opened, read or decoded. *)
Inductive file :=
| Unreadable
| Stored (data : pystr).

(** What [generate] acts on: the files of the cache directory by path,
    which paths can be opened for writing, the provider (the answer to the
    [n]-th outbound call, given its model and prompt) and the outbound
    calls made so far, oldest first. *)
Record world := World {
  cache_files : gmap pystr file;
  cache_writable : pystr -> bool;
  provider : nat -> pystr -> pystr -> result pystr;
  calls : list (pystr * pystr);
}.

(** Code with effects: a state and exception monad over [world]. *)
Definition io (A : Type) : Type := world -> result A * world.

Definition ret {A} (a : A) : io A := fun w => (Ok a, w).
Definition lift {A} (r : result A) : io A := fun w => (r, w).
Definition io_bind {A B} (m : io A) (k : A -> io B) : io B :=
  fun w =>
    match m w with
    | (Ok a, w') => k a w'
    | (Raise e, w') => (Raise e, w')
    end.

(** [try: m  except Exception as e: h e] *)
Definition try_except {A} (m : io A) (h : exn -> io A) : io A :=
  fun w =>
    match m w with
    | (Ok a, w') => (Ok a, w')
    | (Raise e, w') => h e w'
    end.

Notation "'let!' x ':=' m 'in' k" := (io_bind m (fun x => k))
  (at level 10, x name, m at level 100, k at level 200).

Definition ENABLE_CACHE : bool := true.
Definition CACHE_DIR : pystr := lit ".llm_cache".

(** A file opened in text mode: writing turns each line feed into
    [os.linesep] and fails on a surrogate, which UTF-8 cannot encode;
    reading turns [\r\n] and [\r] into a line feed. *)
Definition is_surrogate (c : char) : bool := ((55296 <=? c) && (c <=? 57343))%N.

Fixpoint read_newlines (s : pystr) : pystr :=
  match s with
  | [] => []
  | c :: r =>
    if (c =? 13)%N then
      10%N :: match r with
              | d :: r' => if (d =? 10)%N then read_newlines r' else read_newlines r
              | [] => []
              end
    else c :: read_newlines r
  end.

Definition set_files (w : world) (files : gmap pystr file) : world :=
  {| cache_files := files;
     cache_writable := cache_writable w;
     provider := provider w;
     calls := calls w |}.

Section WithRuntime.
Context `{rt : Runtime}.

Definition write_newlines (s : pystr) : pystr :=
  flat_map (fun c => if (c =? 10)%N then linesep else [c]) s.

(** [s.encode("utf-8")] fails on a surrogate. *)
Definition encodable (s : pystr) : bool := negb (existsb is_surrogate s).

Definition _cache_path (prompt model : pystr) : result pystr :=
  if encodable (model ++ nl ++ prompt) then
    let h := sha256_hex (model ++ nl ++ prompt) in
    Ok (CACHE_DIR ++ lit "/" ++ h ++ lit ".txt")
  else Raise UnicodeEncodeError.

(** The path is computed before the [try]: what it raises leaves
    [_cache_get]. *)
Definition _cache_get (prompt model : pystr) (w : world)
    : result (option pystr) :=
  if negb ENABLE_CACHE then Ok None
  else
    let* p := _cache_path prompt model in
    Ok match cache_files w !! p with
       | Some (Stored data) => Some (read_newlines data)
       | Some Unreadable => None
       | None => None
       end.

(** Opening the file truncates it; a failure of [_cache_path], of [open]
    or of [write] is swallowed. *)
Definition _cache_set (prompt model text : pystr) (w : world) : world :=
  if negb ENABLE_CACHE then w
  else
    match _cache_path prompt model with
    | Raise _ => w
    | Ok p =>
      if cache_writable w p then
        if existsb is_surrogate text
        then set_files w (<[p := Stored []]> (cache_files w))
        else set_files w (<[p := Stored (write_newlines text)]> (cache_files w))
      else w
    end.

(** The client, by backend: only the OpenAI one has a fallback model. *)
Inductive LLMClient :=
| OpenAIClient (primary_model fallback_model : pystr)
| MistralClient (model : pystr).

(** [LLMClient()]: the OpenAI SDK refuses to build a client without a
    key. *)
Definition LLMClient_init (cfg : config) : result LLMClient :=
  if str_eqb (LLM_BACKEND cfg) (lit "openai") then
    match OPENAI_API_KEY cfg with
    | Some _ => Ok (OpenAIClient (OPENAI_MODEL cfg) (OPENAI_FALLBACK_MODEL cfg))
    | None => Raise (LibraryError 0)
    end
  else if str_eqb (LLM_BACKEND cfg) (lit "mistral") then
    match MISTRAL_API_KEY cfg with
    | Some (_ :: _) => Ok (MistralClient (MISTRAL_MODEL cfg))
    | _ => Raise RuntimeError
    end
  else Raise ValueError.

(** One outbound call: the provider answers with a text or the call
    raises. *)
Definition outbound (model prompt : pystr) : io pystr :=
  fun w =>
    (provider w (length (calls w)) model prompt,
     {| cache_files := cache_files w;
        cache_writable := cache_writable w;
        provider := provider w;
        calls := calls w ++ [(model, prompt)] |}).

Definition _call_openai (model prompt : pystr) : io pystr :=
  outbound model prompt.

Definition _call_mistral (model prompt : pystr) : io pystr :=
  outbound model prompt.

Definition cache_model (c : LLMClient) : pystr :=
  match c with
  | OpenAIClient primary _ => primary
  | MistralClient model => model
  end.

Definition generate (c : LLMClient) (prompt : pystr) : io pystr :=
  let model := cache_model c in
  fun w =>
    match _cache_get prompt model w with
    | Raise e => (Raise e, w)
    | Ok (Some cached) => (Ok cached, w)
    | Ok None =>
      (let! text :=
         match c with
         | OpenAIClient primary fallback =>
           try_except (_call_openai primary prompt)
             (fun e =>
                match fallback with
                | _ :: _ => _call_openai fallback prompt
                | [] => lift (Raise e)
                end)
         | MistralClient m => _call_mistral m prompt
         end in
       fun w' => (Ok text, _cache_set prompt model text w')) w
    end.

End WithRuntime.
End Llm.
Export Llm.

(** ** app/summarize.py: utilities and schema coercion *)

Module Summarize.

(** The answers of a session: question key to answer text, a value being
    a string or [None]. *)
Definition answers := list (pystr * option pystr).

(** [answers.get(k)], with a missing key and a [None] value both [None]. *)
Definition answers_get (a : answers) (k : pystr) : option pystr :=
  match dict_get a k with Some (Some s) => Some s | _ => None end.

Record session := { session_answers : option answers }.

(** [session.get("answers", {}) or {}] *)
Definition answers_of (s : session) : answers :=
  match session_answers s with Some a => a | None => [] end.

Definition ELLIPSIS : pystr := lit "…".

Definition _shorten (s : pystr) (n : nat) : pystr :=
  match s with
  | [] => []
  | _ =>
    let s := strip s in
    if length s <=? n then s else rstrip (upto n s) ++ ELLIPSIS
  end.

Definition _cap_text (s : pystr) (max_len : nat) : pystr :=
  match s with
  | [] => []
  | _ =>
    let s := strip s in
    if length s <=? max_len then s else rstrip (upto max_len s) ++ ELLIPSIS
  end.

(** [_read_principles()]: the stripped text of [config.PRINCIPLES_FILE],
    or the empty string when there is no such file; only
    [FileNotFoundError] is caught, any other failure of [open] or [read]
    leaves the function. The argument is the state of the file. *)
Definition _read_principles (file : text_file) : result pystr :=
  match file with
  | Missing => Ok []
  | Holds text => Ok (strip text)
  | Fails e => Raise e
  end.

(** The five semantic keys of [raw_answers] and [notes]. *)
Record five (A : Type) := Five {
  background : A;
  why_lunartech : A;
  experience : A;
  future_goals : A;
  readiness : A;
}.
Arguments Five {A}.
Arguments background {A}.
Arguments why_lunartech {A}.
Arguments experience {A}.
Arguments future_goals {A}.
Arguments readiness {A}.

(** The record [_coerce_schema] returns. *)
Record structured := Structured {
  raw_answers : five pystr;
  notes : five pyval;
  evaluation : pyval;
  suitability : pyval;
  readiness_flag : pyval;
  principles_alignment : dict;
}.

(** The inner function [pick]: the first non-empty answer among [keys]. *)
Fixpoint pick (a : answers) (ks : list pystr) : pystr :=
  match ks with
  | [] => []
  | k :: ks' =>
    match answers_get a k with
    | Some (c :: v) => c :: v
    | _ => pick a ks'
    end
  end.

(** [any(w in t for w in ws)] *)
Definition any_in (ws : list pystr) (t : pystr) : bool :=
  existsb (fun w => contains w t) ws.

Definition READY_NOW_WORDS := [lit "immediate"; lit "ready"; lit "now"].
Definition DATE_WORDS := [lit "week"; lit "month"; lit " from "; lit "start "].
Definition NEEDS_PREP_WORDS :=
  [lit "prep"; lit "support"; lit "refresh"; lit "not ready"].

(** The dictionary under [raw_answers]. *)
Definition resolve_answers (a : answers) : five pystr := {|
  background := pick a [lit "background"; lit "full_name_background"];
  why_lunartech := pick a [lit "why_lunartech"; lit "motivation"];
  experience := pick a [lit "experience"];
  future_goals := pick a [lit "future_goals"; lit "goals"];
  readiness := pick a [lit "readiness"] |}.

Section WithRuntime.
Context `{rt : Runtime}.

(** The readiness inference of [_coerce_schema]. *)
Definition infer_readiness (readiness_text : pystr) : pystr :=
  match readiness_text with
  | [] => lit "unknown"
  | _ =>
    let t := str_lower readiness_text in
    if any_in READY_NOW_WORDS t then lit "ready_now"
    else if any_in DATE_WORDS t then lit "date"
    else if any_in NEEDS_PREP_WORDS t then lit "needs_prep"
    else lit "unknown"
  end.

(** The suitability heuristic of [_coerce_schema]. *)
Definition infer_suitability (a : answers) : pystr :=
  let mot := pick a [lit "why_lunartech"; lit "motivation"] in
  let exp := pick a [lit "experience"] in
  if (120 <? length mot) || (120 <? length exp) then lit "strong"
  else if (40 <? length mot) || (40 <? length exp) then lit "average"
  else lit "weak".

(** [re.match(r"\s*(?:[-*]|\d+\.)\s*(.+)", line)] *)
Definition PRINCIPLE_RE : Re.regex :=
  Re.Cat (Re.Star isspace)
    (Re.Cat (Re.Alt (Re.one_of [45%N; 42%N])
                    (Re.Cat (Re.Plus is_decimal) (Re.chr 46)))
       (Re.Cat (Re.Star isspace) (Re.Group (Re.Plus Re.not_newline)))).

Definition principle_of_line (line : pystr) : list pystr :=
  match Re.rmatch PRINCIPLE_RE line with
  | Some (Some g) => [strip g]
  | _ => []
  end.

(** The list [principle_names] built from the principles text. *)
Definition principle_names (principles_md : pystr) : list pystr :=
  match principles_md with
  | [] => []
  | _ => flat_map principle_of_line (splitlines principles_md)
  end.

(** The comprehension over [principle_names]: each name is set to
    [pa.get(name)] with the empty string as default, left to right,
    starting from [acc]. *)
Fixpoint alignment (pa : pyval) (names : list pystr) (acc : dict)
    : result dict :=
  match names with
  | [] => Ok acc
  | name :: names' =>
    let* v := py_get_default pa name (PStr []) in
    alignment pa names' (dict_set acc name v)
  end.

(** A note: [notes.get(key) or _shorten(pick(...))] *)
Definition note (notes : pyval) (key : pystr) (answer : pystr)
    : result pyval :=
  let* n := py_get notes key in
  Ok (py_or n (PStr (_shorten answer 220))).

Definition DEFAULT_EVALUATION : pystr :=
  lit "Automated notes generated; consider human review for final decision.".

Definition _coerce_schema (principles_file : text_file)
    (raw : pyval) (a : answers) : result structured :=
  let* n := py_get raw (lit "notes") in
  let notes := py_or n (PDict []) in
  let readiness_text := pick a [lit "readiness"] in
  let flag := infer_readiness readiness_text in
  let* s := py_get raw (lit "suitability") in
  let suitability :=
    if eq_str s (lit "strong") || eq_str s (lit "average")
       || eq_str s (lit "weak")
    then s else PStr (infer_suitability a) in
  let picked := resolve_answers a in
  let* n1 := note notes (lit "background") (background picked) in
  let* n2 := note notes (lit "why_lunartech") (why_lunartech picked) in
  let* n3 := note notes (lit "experience") (experience picked) in
  let* n4 := note notes (lit "future_goals") (future_goals picked) in
  let* n5 := note notes (lit "readiness") (readiness picked) in
  let* ev := py_get raw (lit "evaluation") in
  let* rf := py_get raw (lit "readiness_flag") in
  let* principles_md := _read_principles principles_file in
  let names := principle_names principles_md in
  let* p := py_get raw (lit "principles_alignment") in
  let pa := py_or p (PDict []) in
  let* aligned := alignment pa names [] in
  Ok {|
    raw_answers := picked;
    notes := Five n1 n2 n3 n4 n5;
    evaluation := py_or ev (PStr DEFAULT_EVALUATION);
    suitability := suitability;
    readiness_flag := py_or rf (PStr flag);
    principles_alignment := aligned |}.

(** ** Rendering *)

(** A value inside an f-string. *)
Definition fmt (v : pyval) : pystr :=
  match v with PStr s => s | _ => py_str v end.

(** [suit.upper()]: only a [str] has the method. *)
Definition upper (v : pyval) : result pystr :=
  match v with PStr s => Ok (str_upper s) | _ => Raise AttributeError end.

Definition EM_DASH : pystr := lit "—".

Definition alignment_lines (pa : dict) : list pystr :=
  match pa with
  | [] => []
  | _ =>
    (nl ++ lit "### Principles Alignment")
    :: List.map (fun kv =>
         lit "- **" ++ fst kv ++ lit ":** " ++ fmt (py_or (snd kv) (PStr EM_DASH)))
       pa
  end.

Definition _render_markdown (summary : structured) : result pystr :=
  let n := notes summary in
  let* suit := upper (suitability summary) in
  Ok (join nl
    ([ lit "### Candidate Review (Condensed)";
       lit "- **Background:** " ++ fmt (background n);
       lit "- **Why LunarTech:** " ++ fmt (why_lunartech n);
       lit "- **Experience:** " ++ fmt (experience n);
       lit "- **Goals:** " ++ fmt (future_goals n);
       lit "- **Readiness:** " ++ fmt (readiness n)
         ++ lit "  (_flag_: " ++ fmt (readiness_flag summary) ++ lit ")";
       [];
       lit "**Evaluation:** " ++ fmt (evaluation summary);
       lit "**Suitability:** " ++ suit;
       [];
       lit "_Full raw answers are stored in the session JSON under `summary.raw_answers`._" ]
     ++ alignment_lines (principles_alignment summary))).

(** ** Template mode *)

Definition TEMPLATE_EVALUATION : pystr :=
  lit "Template summary: Candidate provided responses. Enable LLM summaries for richer evaluation.".

Definition set_evaluation (st : structured) (v : pyval) : structured :=
  {| raw_answers := raw_answers st;
     notes := notes st;
     evaluation := v;
     suitability := suitability st;
     readiness_flag := readiness_flag st;
     principles_alignment := principles_alignment st |}.

Definition _template_summary (principles_file : text_file) (s : session)
    : result (pystr * structured) :=
  let a := answers_of s in
  let* structured := _coerce_schema principles_file (PDict []) a in
  let structured := set_evaluation structured (PStr TEMPLATE_EVALUATION) in
  let* md := _render_markdown structured in
  Ok (md, structured).


(** ** Response extraction *)

(** [json.loads(s)] returns. *)
Definition decodes (s : pystr) : bool :=
  match json_loads s with Some _ => true | None => false end.

(** The pattern of the fenced block, three backquotes, an optional [json],
    blanks, the group taken lazily, blanks, three backquotes, with
    [re.IGNORECASE]: under it [s] also matches U+017F. *)
Definition FENCE : Re.regex :=
  Re.Cat (Re.chr 96) (Re.Cat (Re.chr 96) (Re.chr 96)).

Definition FENCED_RE : Re.regex :=
  Re.Cat FENCE
    (Re.Cat (Re.Opt (Re.Cat (Re.one_of [106%N; 74%N])
                      (Re.Cat (Re.one_of [115%N; 83%N; 383%N])
                        (Re.Cat (Re.one_of [111%N; 79%N])
                                (Re.one_of [110%N; 78%N])))))
      (Re.Cat (Re.Star isspace)
        (Re.Cat (Re.Group (Re.LazyStar Re.any_char))
          (Re.Cat (Re.Star isspace) FENCE)))).

(** [m.group(1).strip()] of the fenced block found, if any. *)
Definition fenced_candidate (text : pystr) : option pystr :=
  match Re.search FENCED_RE text with
  | Some (Some g) => Some (strip g)
  | _ => None
  end.

(** The substrings the two nested loops try, in the order they try them:
    [text[opens[i]:closes[j]+1]] for [i] in [range(len(opens))] and [j] in
    [range(len(closes)-1, i-1, -1)]. *)
Definition brace_spans (text : pystr) : list pystr :=
  let opens := positions 123%N text in
  let closes := positions 125%N text in
  flat_map
    (fun i =>
       List.map (fun j => slice text (nth i opens 0) (S (nth j closes 0)))
         (rev (seq i (length closes - i))))
    (seq 0 (length opens)).

Definition _extract_json_block (text : pystr) : option pystr :=
  match text with
  | [] => None
  | _ =>
    match
      match fenced_candidate text with
      | Some cand => if decodes cand then Some cand else None
      | None => None
      end
    with
    | Some cand => Some cand
    | None =>
      match List.find decodes (brace_spans text) with
      | Some s => Some s
      | None =>
        if decodes (strip text) then Some (strip text) else None
      end
    end
  end.

Definition _safe_json_parse (text : pystr) : pyval :=
  match text with
  | [] => PDict []
  | _ =>
    match json_loads text with
    | Some v => v
    | None =>
      match _extract_json_block text with
      | Some (c :: block) =>
        match json_loads (c :: block) with
        | Some v => v
        | None => PDict []
        end
      | _ => PDict []
      end
    end
  end.

(** ** The model path *)

Definition _SYSTEM : pystr :=
  lit "You are an admissions assistant for a data/AI bootcamp. "
  ++ lit "Return STRICT JSON only. Do not include any prose outside JSON.".

(** [_USER_FMT.format(answers_json=..., principles_text=...)] *)
Definition _USER_FMT (answers_json principles_text : pystr) : pystr :=
  join nl [
    [];
    lit "You will evaluate a candidate's interview **only** using the answers below and the provided principles.";
    lit "Do **not** invent information. If there is **no clear supporting evidence** for a principle in the answers, leave that principle's value as an empty string.";
    [];
    lit "Interview answers (JSON-like; keys may vary):";
    answers_json;
    [];
    lit "Evaluation principles (markdown list items):";
    principles_text;
    [];
    lit "Return a single JSON object with EXACT keys:";
    lit "{";
    tq "  ^raw_answers^: {";
    tq "    ^background^: ^^,";
    tq "    ^why_lunartech^: ^^,";
    tq "    ^experience^: ^^,";
    tq "    ^future_goals^: ^^,";
    tq "    ^readiness^: ^^";
    lit "  },";
    tq "  ^notes^: {";
    tq "    ^background^: ^1–2 sentence note based strictly on answers^,";
    tq "    ^why_lunartech^: ^1–2 sentence note^,";
    tq "    ^experience^: ^1–2 sentence note^,";
    tq "    ^future_goals^: ^1–2 sentence note^,";
    tq "    ^readiness^: ^1–2 sentence note^";
    lit "  },";
    tq "  ^evaluation^: ^Overall suitability notes (2–4 sentences, grounded in answers).^,";
    tq "  ^suitability^: ^strong|average|weak^,";
    tq "  ^readiness_flag^: ^ready_now|date|needs_prep|unknown^,";
    tq "  ^principles_alignment^: {";
    lit "    // keys must mirror each principle name exactly;";
    tq "    // each value must be SHORT evidence from the interview (1 sentence max) or ^^ if not supported.";
    lit "  }";
    lit "}";
    [];
    lit "Rules:";
    lit "- Use **only** the provided answers for evidence; do not assume background knowledge.";
    tq "- If a principle is **not** covered by any answer, set its value to ^^ (empty string).";
    lit "- Keep notes concise and factual.";
    lit "- Output **STRICT JSON only** (no markdown fences or extra text).";
    []
  ].

(** The dictionary [answers_capped]: the non-empty answers, each capped. *)
Fixpoint cap_answers (a : answers) (cap : nat) : list (pystr * pystr) :=
  match a with
  | [] => []
  | (k, Some (c :: v)) :: a' => (k, _cap_text (c :: v) cap) :: cap_answers a' cap
  | _ :: a' => cap_answers a' cap
  end.

(** The cooldown [time.sleep] before the call changes no value and is
    left out. *)
Definition _llm_summary (cfg : config) (principles_file : text_file)
    (s : session) : io (pystr * structured) :=
  let a := answers_of s in
  let cap := SUMMARY_ANSWER_CAP cfg in
  let answers_capped := cap_answers a cap in
  let! client := lift (LLMClient_init cfg) in
  let! principles_text := lift (_read_principles principles_file) in
  let prompt :=
    _USER_FMT (json_dumps answers_capped)
      (match principles_text with
       | [] => lit "(no principles provided)"
       | _ => principles_text
       end) in
  let! response := generate client (_SYSTEM ++ nl ++ nl ++ prompt) in
  let raw := _safe_json_parse response in
  let! structured := lift (_coerce_schema principles_file raw a) in
  let! md := lift (_render_markdown structured) in
  ret (md, structured).

(** ** Public API *)

Definition summarize_session (cfg : config) (principles_file : text_file)
    (s : session) : io (pystr * structured) :=
  if negb (USE_LLM_SUMMARY cfg) then lift (_template_summary principles_file s)
  else
    try_except (_llm_summary cfg principles_file s)
      (fun e => lift (_template_summary principles_file s)).

End WithRuntime.
End Summarize.
Export Summarize.

(** ** A runtime for the examples

    [ascii_runtime] gives each field of [Runtime] a computable value that
    agrees with CPython on the inputs of the examples: ASCII case mapping
    and digits, and JSON texts made of objects, arrays, strings without
    escapes, integers and the three literals. *)

Module AsciiRuntime.

Definition ascii_lower (s : pystr) : pystr :=
  List.map (fun c => if ((65 <=? c) && (c <=? 90))%N then (c + 32)%N else c) s.

Definition ascii_upper (s : pystr) : pystr :=
  List.map (fun c => if ((97 <=? c) && (c <=? 122))%N then (c - 32)%N else c) s.

Definition ascii_digit (c : char) : bool := ((48 <=? c) && (c <=? 57))%N.

Definition json_ws (c : char) : bool :=
  ((c =? 32) || (c =? 9) || (c =? 10) || (c =? 13))%N.

Fixpoint skip_ws (s : pystr) : pystr :=
  match s with
  | c :: s' => if json_ws c then skip_ws s' else s
  | [] => []
  end.

(** The characters of a string up to its closing quote; a backslash or a
    control character ends the attempt. *)
Fixpoint take_string (s acc : pystr) : option (pystr * pystr) :=
  match s with
  | [] => None
  | c :: s' =>
    if (c =? 34)%N then Some (rev acc, s')
    else if (c =? 92)%N || (c <? 32)%N then None
    else take_string s' (c :: acc)
  end.

Fixpoint take_digits (s : pystr) (acc : Z) : Z * pystr :=
  match s with
  | c :: s' =>
    if ascii_digit c then take_digits s' (acc * 10 + Z.of_N (c - 48))%Z
    else (acc, s)
  | [] => (acc, [])
  end.

(** An integer: [0] or a digit sequence without a leading zero; a
    fraction or an exponent after it is outside the subset. *)
Definition take_int (s : pystr) : option (Z * pystr) :=
  match s with
  | c :: s' =>
    if ascii_digit c then
      let '(z, r) := if (c =? 48)%N then (0%Z, s') else take_digits s 0%Z in
      match r with
      | d :: _ =>
        if (d =? 46)%N || (d =? 101)%N || (d =? 69)%N then None
        else Some (z, r)
      | [] => Some (z, r)
      end
    else None
  | [] => None
  end.

Definition take_word (w : pystr) (v : pyval) (s : pystr)
    : option (pyval * pystr) :=
  if starts_with w s then Some (v, skipn (length w) s) else None.

Fixpoint parse_value (fuel : nat) (s : pystr) : option (pyval * pystr) :=
  match fuel with
  | 0 => None
  | S f =>
    match s with
    | [] => None
    | c :: r =>
      if (c =? 123)%N then
        match skip_ws r with
        | [] => None
        | c' :: r' =>
          if (c' =? 125)%N then Some (PDict [], r')
          else parse_members f (c' :: r') []
        end
      else if (c =? 91)%N then
        match skip_ws r with
        | [] => None
        | c' :: r' =>
          if (c' =? 93)%N then Some (PList [], r')
          else parse_elems f (c' :: r') []
        end
      else if (c =? 34)%N then
        match take_string r [] with
        | Some (str, r') => Some (PStr str, r')
        | None => None
        end
      else if (c =? 45)%N then
        match take_int r with
        | Some (z, r') => Some (PInt (- z), r')
        | None => None
        end
      else if ascii_digit c then
        match take_int s with
        | Some (z, r') => Some (PInt z, r')
        | None => None
        end
      else
        match take_word (lit "null") PNone s with
        | Some x => Some x
        | None =>
          match take_word (lit "true") (PBool true) s with
          | Some x => Some x
          | None => take_word (lit "false") (PBool false) s
          end
        end
    end
  end
with parse_elems (fuel : nat) (s : pystr) (acc : list pyval)
    : option (pyval * pystr) :=
  match fuel with
  | 0 => None
  | S f =>
    match parse_value f s with
    | Some (v, r) =>
      match skip_ws r with
      | c :: r' =>
        if (c =? 44)%N then parse_elems f (skip_ws r') (v :: acc)
        else if (c =? 93)%N then Some (PList (rev (v :: acc)), r')
        else None
      | [] => None
      end
    | None => None
    end
  end
with parse_members (fuel : nat) (s : pystr) (acc : dict)
    : option (pyval * pystr) :=
  match fuel with
  | 0 => None
  | S f =>
    match s with
    | c :: r =>
      if (c =? 34)%N then
        match take_string r [] with
        | Some (k, r1) =>
          match skip_ws r1 with
          | c1 :: r2 =>
            if (c1 =? 58)%N then
              match parse_value f (skip_ws r2) with
              | Some (v, r3) =>
                match skip_ws r3 with
                | c3 :: r4 =>
                  if (c3 =? 44)%N
                  then parse_members f (skip_ws r4) (dict_set acc k v)
                  else if (c3 =? 125)%N
                  then Some (PDict (dict_set acc k v), r4)
                  else None
                | [] => None
                end
              | None => None
              end
            else None
          | [] => None
          end
        | None => None
        end
      else None
    | [] => None
    end
  end.

Definition mini_json_loads (s : pystr) : option pyval :=
  match parse_value (S (length s)) (skip_ws s) with
  | Some (v, r) => match skip_ws r with [] => Some v | _ => None end
  | None => None
  end.

(** [json.dumps] of a dictionary of strings that need no escape *)
Definition mini_json_dumps (d : list (pystr * pystr)) : pystr :=
  lit "{"
  ++ join (lit ", ")
       (List.map (fun kv => [dq] ++ fst kv ++ [dq] ++ lit ": "
                            ++ [dq] ++ snd kv ++ [dq]) d)
  ++ lit "}".

Definition mini_str (v : pyval) : pystr :=
  match v with
  | PNone => lit "None"
  | PBool true => lit "True"
  | PBool false => lit "False"
  | PStr s => s
  | _ => []   (* no example formats a number, a list or a dictionary *)
  end.

(** The hash is replaced by the text itself, which collides nowhere. *)
Definition ascii_runtime : Runtime := {|
  str_lower := ascii_lower;
  str_upper := ascii_upper;
  is_decimal := ascii_digit;
  py_str := mini_str;
  json_loads := mini_json_loads;
  json_dumps := mini_json_dumps;
  sha256_hex := fun s => s;
  linesep := nl;
|}.

End AsciiRuntime.
Export AsciiRuntime.


(** * The vocabulary of the properties

    Definitions in which the properties are stated: what the model
    supplied under a key, the record coercion builds, the names of a list
    without their repetitions, the algorithm of the specification for
    extraction, sequences of calls to the client. *)

Module Vocabulary.

(** [d.get(k)] *)
Definition field (d : dict) (k : pystr) : pyval :=
  match dict_get d k with Some v => v | None => PNone end.

(** The evidence for a principle: [pa.get(name)] with the empty string as
    default. *)
Definition evidence (pa : dict) (name : pystr) : pyval :=
  match dict_get pa name with Some v => v | None => PStr [] end.

(** [n in l] *)
Definition mem (n : pystr) (l : list pystr) : bool := existsb (str_eqb n) l.

(** The names of a list, each once, in the order of their first
    occurrence. *)
Fixpoint first_occurrences (l : list pystr) : list pystr :=
  match l with
  | [] => []
  | n :: l' =>
    n :: List.filter (fun m => negb (str_eqb n m)) (first_occurrences l')
  end.

(** The mapping of the [names], in their order, to their evidence. *)
Definition aligned_with (pa : dict) (names : list pystr) : dict :=
  List.map (fun n => (n, evidence pa n)) names.

(** What the model supplied under a key, [None] when it did not. *)
Definition supplied (raw : pyval) (k : pystr) : pyval :=
  match raw with PDict d => field d k | _ => PNone end.

(** The mapping [raw.get(k) or {}] when it is one. *)
Definition supplied_mapping (raw : pyval) (k : pystr) : dict :=
  match py_or (supplied raw k) (PDict []) with PDict m => m | _ => [] end.

(** The five keys of [raw_answers] and [notes]. *)
Inductive semantic_key :=
| Background | WhyLunartech | Experience | FutureGoals | Readiness.

Definition key_name (k : semantic_key) : pystr :=
  match k with
  | Background => lit "background"
  | WhyLunartech => lit "why_lunartech"
  | Experience => lit "experience"
  | FutureGoals => lit "future_goals"
  | Readiness => lit "readiness"
  end.

Definition at_key {A} (k : semantic_key) (f : five A) : A :=
  match k with
  | Background => background f
  | WhyLunartech => why_lunartech f
  | Experience => experience f
  | FutureGoals => future_goals f
  | Readiness => readiness f
  end.

(** A value [v] for which [v or {}] is a mapping. *)
Definition mapping_or_falsy (v : pyval) : bool := is_dict v || negb (truthy v).

(** One of the four readiness literals. *)
Definition is_readiness_literal (v : pyval) : bool :=
  eq_str v (lit "ready_now") || eq_str v (lit "date")
  || eq_str v (lit "needs_prep") || eq_str v (lit "unknown").

(** [v] is the first non-empty answer under the keys [ks], taken as it
    is, or the empty string when there is none. *)
Inductive first_nonempty (a : answers) : list pystr -> pystr -> Prop :=
| first_nonempty_nil : first_nonempty a [] []
| first_nonempty_here k ks c v :
    answers_get a k = Some (c :: v) -> first_nonempty a (k :: ks) (c :: v)
| first_nonempty_skip k ks r :
    answers_get a k = None \/ answers_get a k = Some [] ->
    first_nonempty a ks r -> first_nonempty a (k :: ks) r.

(** [s] runs from an opening brace of [text] to a closing brace. *)
Definition brace_span (text s : pystr) : Prop :=
  exists o c,
    In o (positions 123%N text) /\ In c (positions 125%N text)
    /\ s = slice text o (S c).

Section WithRuntime.
Context `{rt : Runtime}.

(** The fields of the record coercion returns, from the raw mapping [d],
    the mapping [nd] under its [notes] and the answers. *)
Definition note_of (nd : dict) (key : pystr) (answer : pystr) : pyval :=
  py_or (field nd key) (PStr (_shorten answer 220)).

Definition suitability_of (d : dict) (a : answers) : pyval :=
  let s := field d (lit "suitability") in
  if eq_str s (lit "strong") || eq_str s (lit "average") || eq_str s (lit "weak")
  then s else PStr (infer_suitability a).

Definition coerced (d nd : dict) (a : answers) (al : dict) : structured := {|
  raw_answers := resolve_answers a;
  notes := Five
    (note_of nd (lit "background") (background (resolve_answers a)))
    (note_of nd (lit "why_lunartech") (why_lunartech (resolve_answers a)))
    (note_of nd (lit "experience") (experience (resolve_answers a)))
    (note_of nd (lit "future_goals") (future_goals (resolve_answers a)))
    (note_of nd (lit "readiness") (readiness (resolve_answers a)));
  evaluation := py_or (field d (lit "evaluation")) (PStr DEFAULT_EVALUATION);
  suitability := suitability_of d a;
  readiness_flag :=
    py_or (field d (lit "readiness_flag"))
          (PStr (infer_readiness (pick a [lit "readiness"])));
  principles_alignment := al |}.

(** A file that is missing or can be read: reading it raises nothing. *)
Definition readable (pf : text_file) : bool :=
  match pf with Fails _ => false | _ => true end.

(** The principles text [_read_principles] returns when it returns. *)
Definition principles_text (pf : text_file) : pystr :=
  match _read_principles pf with Ok text => text | Raise _ => [] end.

(** The raw mappings on which coercion returns, the principles file
    being missing or readable. *)
Definition coercible (pf : text_file) (d : dict) : bool :=
  mapping_or_falsy (field d (lit "notes"))
  && (mapping_or_falsy (field d (lit "principles_alignment"))
      || match principle_names (principles_text pf) with
         | [] => true
         | _ => false
         end).

(** The record of template mode. *)
Definition template_record (pf : text_file) (a : answers) : structured :=
  set_evaluation
    (coerced [] [] a
       (aligned_with [] (first_occurrences (principle_names (principles_text pf)))))
    (PStr TEMPLATE_EVALUATION).

(** The algorithm as the specification words it: a fenced block or a
    brace span is accepted when it decodes as a JSON object, and the
    closing braces tried for an opening brace at position [o] are those at
    positions [c >= o], the last one first. *)
Definition decodes_object (s : pystr) : bool :=
  match json_loads s with Some (PDict _) => true | _ => false end.

(** The spans of the specification, in its order. *)
Definition reference_spans (text : pystr) : list pystr :=
  flat_map
    (fun o =>
       List.map (fun c => slice text o (S c))
         (rev (List.filter (fun c => o <=? c) (positions 125%N text))))
    (positions 123%N text).

(** The four steps of the specification; [None] is its absent. *)
Definition extract_reference (text : pystr) : option pystr :=
  match
    match fenced_candidate text with
    | Some cand => if decodes_object cand then Some cand else None
    | None => None
    end
  with
  | Some cand => Some cand
  | None =>
    match List.find decodes_object (reference_spans text) with
    | Some s => Some s
    | None => if decodes (strip text) then Some (strip text) else None
    end
  end.

(** The fenced block of [text] decodes. *)
Definition fenced_decodes (text : pystr) : bool :=
  match fenced_candidate text with
  | Some cand => decodes cand
  | None => false
  end.

(** The path of the cache entry of a prompt and a model, and the entry
    read from it, when the path can be computed. *)
Definition cache_file (prompt model : pystr) : pystr :=
  CACHE_DIR ++ lit "/" ++ sha256_hex (model ++ nl ++ prompt) ++ lit ".txt".

Definition cached (prompt model : pystr) (w : world) : option pystr :=
  match cache_files w !! cache_file prompt model with
  | Some (Stored data) => Some (read_newlines data)
  | _ => None
  end.

(** The world after one outbound call. *)
Definition after_call (model prompt : pystr) (w : world) : world :=
  snd (outbound model prompt w).


(** The three ways a call that misses the cache ends. *)
Inductive miss_outcome (c : LLMClient) (prompt : pystr) (w : world)
    : result pystr * world -> Prop :=
| miss_first model t :
    model = match c with OpenAIClient p _ => p | MistralClient m => m end ->
    provider w (length (calls w)) model prompt = Ok t ->
    miss_outcome c prompt w
      (Ok t, _cache_set prompt (cache_model c) t (after_call model prompt w))
| miss_raise model e :
    model = match c with OpenAIClient p _ => p | MistralClient m => m end ->
    match c with OpenAIClient _ (_ :: _) => False | _ => True end ->
    provider w (length (calls w)) model prompt = Raise e ->
    miss_outcome c prompt w (Raise e, after_call model prompt w)
| miss_fallback primary fallback e r :
    c = OpenAIClient primary fallback -> fallback <> [] ->
    provider w (length (calls w)) primary prompt = Raise e ->
    provider w (S (length (calls w))) fallback prompt = r ->
    miss_outcome c prompt w
      (match r with
       | Ok t =>
         (Ok t, _cache_set prompt primary t
                  (after_call fallback prompt (after_call primary prompt w)))
       | Raise e' =>
         (Raise e', after_call fallback prompt (after_call primary prompt w))
       end).

End WithRuntime.
End Vocabulary.
Export Vocabulary.

(** The inputs of the examples. *)

Module Samples.

Definition R : Runtime := ascii_runtime.

Definition FENCE3 : pystr := lit "```".

(** A backend on which the first outbound call fails and the later ones
    return an empty JSON object; the cache directory is empty and
    writable. *)
Definition flaky_world : world := {|
  cache_files := ∅;
  cache_writable := fun _ => true;
  provider := fun n _ _ =>
    match n with 0 => Raise (LibraryError 503) | _ => Ok (lit "{}") end;
  calls := [] |}.

(** A backend that always fails. *)
Definition failing_world : world := {|
  cache_files := ∅;
  cache_writable := fun _ => true;
  provider := fun _ _ _ => Raise (LibraryError 503);
  calls := [] |}.

(** A backend that always answers with an empty JSON object. *)
Definition steady_world : world := {|
  cache_files := ∅;
  cache_writable := fun _ => true;
  provider := fun _ _ _ => Ok (lit "{}");
  calls := [] |}.



Definition openai_config : config := {|
  USE_LLM_SUMMARY := true;
  SUMMARY_ANSWER_CAP := 800;
  LLM_BACKEND := lit "openai";
  OPENAI_API_KEY := Some (lit "sk-test");
  OPENAI_MODEL := lit "gpt-4o-mini";
  OPENAI_FALLBACK_MODEL := lit "gpt-4o";
  MISTRAL_API_KEY := None;
  MISTRAL_MODEL := lit "mistral-medium-latest" |}.

(** The same with the model summary switched off. *)
Definition template_config : config := {|
  USE_LLM_SUMMARY := false;
  SUMMARY_ANSWER_CAP := 800;
  LLM_BACKEND := lit "openai";
  OPENAI_API_KEY := Some (lit "sk-test");
  OPENAI_MODEL := lit "gpt-4o-mini";
  OPENAI_FALLBACK_MODEL := lit "gpt-4o";
  MISTRAL_API_KEY := None;
  MISTRAL_MODEL := lit "mistral-medium-latest" |}.

Definition sample_session : session := {|
  session_answers := Some [
    (lit "background", Some (lit "..."));
    (lit "experience", Some (lit "..."));
    (lit "readiness", Some (lit "starting next month")) ] |}.

(** A session whose background answer has 1000 characters. *)
Definition long_session : session := {|
  session_answers := Some [(lit "background", Some (repeat 97%N 1000))] |}.

(** The template literal as the specification gives it. *)
Definition SPEC_TEMPLATE_EVALUATION : pystr :=
  lit "Template summary: Candidate provided responses. Enable richer evaluation via the model backend.".

End Samples.
Export Samples.

(** * Further vocabulary *)

Module Vocabulary2.

(** One of the three suitability literals. *)
Definition is_suitability_literal (v : pyval) : bool :=
  eq_str v (lit "strong") || eq_str v (lit "average") || eq_str v (lit "weak").

(** A string without blanks at either end. *)
Definition head_ok (s : pystr) : bool :=
  match s with c :: _ => negb (isspace c) | [] => true end.
Definition is_stripped (s : pystr) : bool := head_ok s && head_ok (rev s).

(** The answers that are sent to the model: those with a non-empty
    text. *)
Definition nonempty_answer (kv : pystr * option pystr) : bool :=
  match snd kv with Some (_ :: _) => true | _ => false end.

(** [c not in s] *)
Definition free_of (c : char) (s : pystr) : bool := negb (existsb (N.eqb c) s).

Section WithRuntime.
Context `{rt : Runtime}.

(** The prompt [_llm_summary] sends. *)
Definition llm_prompt (cfg : config) (pf : text_file) (s : session)
    : pystr :=
  _SYSTEM ++ nl ++ nl
  ++ _USER_FMT
       (json_dumps (cap_answers (answers_of s) (SUMMARY_ANSWER_CAP cfg)))
       (match principles_text pf with
        | [] => lit "(no principles provided)"
        | _ => principles_text pf
        end).

(** The record of the model path when nothing was extracted. *)
Definition heuristic_record (pf : text_file) (a : answers) : structured :=
  coerced [] [] a
    (aligned_with [] (first_occurrences (principle_names (principles_text pf)))).

(** What a cache file gives back after [text] was written to it. *)
Definition read_back (text : pystr) : pystr :=
  if existsb is_surrogate text then []
  else read_newlines (write_newlines text).

End WithRuntime.
End Vocabulary2.
Export Vocabulary2.

(** * The interview, the question round and the run

    The callers of the summary: the agent that collects the answers
    ([app/interview.py]), the transcript ([app/logger.py]), the question
    round of the candidate ([app/faq.py]) and the stages of
    [run_interview] that lead to the summary ([app/main.py]), in text
    mode. *)

Module Terminal.

(** The terminal and the clock: the lines still to come on standard
    input, without their line ends, and the readings of the clock, the
    [n]-th one in the two formats the code asks for. A [print] changes
    no value and is left out. *)
Record console := Console {
  stdin : list pystr;
  isoformat_at : nat -> pystr;     (* [datetime.now().isoformat()] *)
  strftime_at : nat -> pystr;      (* [strftime("%Y-%m-%d %H:%M:%S")] *)
  clock_reads : nat;
}.

(** What this code raises besides the exceptions of the client. *)
Inductive error :=
| EOFError
| IndexError
| Propagated (e : exn).

Inductive outcome (A : Type) :=
| Returned (a : A)
| Raised (e : error).
Arguments Returned {A} a.
Arguments Raised {A} e.

Definition set_stdin (c : console) (lines : list pystr) : console :=
  {| stdin := lines;
     isoformat_at := isoformat_at c;
     strftime_at := strftime_at c;
     clock_reads := clock_reads c |}.

Definition tick (c : console) : console :=
  {| stdin := stdin c;
     isoformat_at := isoformat_at c;
     strftime_at := strftime_at c;
     clock_reads := S (clock_reads c) |}.

(** [input(prompt)]: the next line, [EOFError] at the end of input. *)
Definition input (c : console) : outcome pystr * console :=
  match stdin c with
  | [] => (Raised EOFError, c)
  | line :: rest => (Returned line, set_stdin c rest)
  end.

End Terminal.
Export Terminal.

(** ** app/interview.py *)

Module Interview.

Record question := Question { key : pystr; text : pystr }.

Definition REQUIRED_QUESTIONS : list question := [
  {| key := lit "background";
     text := lit "Tell us your background and journey. What inspires you to pursue data science or AI?" |};
  {| key := lit "why_company";
     text := lit "What motivates you to learn at [Company Name] specifically?" |};
  {| key := lit "experience";
     text := lit "What hands-on projects or technical experiences have you completed so far?" |};
  {| key := lit "future_goals";
     text := lit "What are your goals after completing the bootcamp? How do you hope to make an impact?" |};
  {| key := lit "readiness";
     text := lit "Are you ready to start? If not, what support or prep would help you feel fully prepared?" |}
].

(** A turn: role, text and time stamp; the text of a user turn is what
    was passed to [record_answer], a string or [None]. *)
Definition turn : Type := pystr * option pystr * pystr.

Record InterviewAgent := Agent {
  questions : list question;
  answers : Summarize.answers;
  turns : list turn;
  index : nat;
}.

(** The agent and the terminal it talks to. *)
Definition state : Type := InterviewAgent * console.

Definition InterviewAgent_init : InterviewAgent :=
  {| questions := REQUIRED_QUESTIONS; answers := []; turns := []; index := 0 |}.

Definition _log_turn (role : pystr) (txt : option pystr) (s : state) : state :=
  let (self, c) := s in
  ({| questions := questions self;
      answers := answers self;
      turns := turns self ++ [(role, txt, isoformat_at c (clock_reads c))];
      index := index self |},
   tick c).

Definition start (s : state) : state :=
  _log_turn (lit "agent")
    (Some (lit "Hello! I’ll ask a few questions to learn about you.")) s.

Definition has_next (self : InterviewAgent) : bool :=
  index self <? length (questions self).

Definition next_question (s : state) : outcome question * state :=
  match nth_error (questions (fst s)) (index (fst s)) with
  | None => (Raised IndexError, s)
  | Some q =>
    let (self, c) := _log_turn (lit "agent") (Some (text q)) s in
    (Returned q,
     ({| questions := questions self;
         answers := answers self;
         turns := turns self;
         index := index self + 1 |}, c))
  end.

Definition REPROMPT : pystr :=
  lit "I didn't quite catch that. Could you add a bit more detail?".
Definition NO_RESPONSE : pystr := lit "(no response provided)".

Section WithConfig.
(** [config.MIN_ANSWER_CHARS] *)
Variable MIN_ANSWER_CHARS : Z.

Definition _too_short (txt : option pystr) : bool :=
  match txt with
  | None => true
  | Some s =>
    let t := strip s in
    if length t =? 0 then true
    else (Z.of_nat (length t) <? MIN_ANSWER_CHARS)%Z
  end.

(** [self.answers[key] = user_text] *)
Definition store_answer (k : pystr) (user_text : option pystr) (s : state)
    : state :=
  let (self, c) := s in
  ({| questions := questions self;
      answers := dict_set (answers self) k user_text;
      turns := turns self;
      index := index self |}, c).

Definition record_answer (k : pystr) (user_text : option pystr) (s : state)
    : outcome unit * state :=
  let s := _log_turn (lit "user") user_text s in
  if _too_short user_text then
    let s := _log_turn (lit "agent") (Some REPROMPT) s in
    match input (snd s) with
    | (Raised e, c) => (Raised e, (fst s, c))
    | (Returned line, c) =>
      let user_text := strip line in
      let s := _log_turn (lit "user") (Some user_text) (fst s, c) in
      let user_text :=
        if length user_text =? 0 then NO_RESPONSE else user_text in
      (Returned tt, store_answer k (Some user_text) s)
    end
  else (Returned tt, store_answer k user_text s).

End WithConfig.

Definition acknowledge (user_text : option pystr) : pystr :=
  match user_text with
  | Some (c :: s) =>
    if 20 <? length (c :: s) then lit "Thanks, that helps." else []
  | _ => []
  end.

(** The dictionary [build_session] returns. *)
Record turn_entry := { turn_role : pystr; turn_text : option pystr; turn_time : pystr }.
Record session_dict := {
  metadata : list (pystr * pystr);
  session_answers_of : Summarize.answers;
  session_turns : list turn_entry;
}.

Definition build_session (self : InterviewAgent) : session_dict :=
  {| metadata := [(lit "project", lit "AI Interview Agent");
                  (lit "version", lit "0.1.0")];
     session_answers_of := answers self;
     session_turns :=
       List.map (fun t : turn =>
                   let '(r, t, ts) := t in
                   {| turn_role := r; turn_text := t; turn_time := ts |})
                (turns self) |}.

(** What [summarize_session] reads of it: the value under [answers]. *)
Definition summary_input (d : session_dict) : session :=
  {| session_answers := Some (session_answers_of d) |}.

End Interview.

(** ** app/logger.py *)

Module Logger.

Section WithRuntime.
Context `{rt : Runtime}.

(** [SessionLogger.log_turn] on the lines of the logger. *)
Definition log_turn (role txt : pystr) (s : list pystr * console)
    : list pystr * console :=
  let (lines, c) := s in
  let ts := strftime_at c (clock_reads c) in
  (lines ++ [lit "[" ++ ts ++ lit "] " ++ str_upper role ++ lit ": " ++ txt],
   tick c).

(** A line of the transcript. *)
Definition transcript_line (ts role txt : pystr) : pystr :=
  lit "[" ++ ts ++ lit "] " ++ str_upper role ++ lit ": " ++ txt.

(** The text [save_transcript] writes. *)
Definition transcript (lines : list pystr) : pystr := join nl lines.

End WithRuntime.
End Logger.

(** ** app/faq.py *)

Module Faq.

(** [_read_faq_text()]: the stripped text of [config.FAQ_FILE], or the
    empty string when there is no such file; only [FileNotFoundError] is
    caught, any other failure of [open] or [read] leaves the function.
    The argument is the state of the file. *)
Definition _read_faq_text (file : text_file) : result pystr :=
  match file with
  | Missing => Ok []
  | Holds txt => Ok (strip txt)
  | Fails e => Raise e
  end.

Definition NO_FAQ_CONTEXT : pystr := lit "(No FAQ context provided.)".

(** The words that end the round. *)
Definition STOP_WORDS : list pystr :=
  [lit "no"; lit "done"; lit "nothing"; lit "exit"].

Definition faq_prompt (faq_text q : pystr) : pystr :=
  lit "You are an admissions assistant. Answer the user's question using ONLY this program FAQ:"
  ++ nl ++ nl ++ faq_text ++ nl ++ nl ++ lit "Question: " ++ q
  ++ nl ++ nl ++ lit "Answer:".

(** A pair of the list [faq_loop] returns: question and answer. *)
Definition faq_pair : Type := pystr * pystr.

Section WithRuntime.
Context `{rt : Runtime}.
(** [str(e)] of an exception. *)
Variable exn_str : exn -> pystr.

(** [not q or q.lower() in ("no", "done", "nothing", "exit")] *)
Definition stops (q : pystr) : bool :=
  match q with
  | [] => true
  | _ => existsb (str_eqb (str_lower q)) STOP_WORDS
  end.


(** The answer to one question: the stripped text of the model, or the
    bracketed message of the exception [generate] raised. *)
Definition faq_answer (client : LLMClient) (faq_text q : pystr) (w : world)
    : pystr * world :=
  match generate client (faq_prompt faq_text q) w with
  | (Ok resp, w') => (strip resp, w')
  | (Raise e, w') =>
    (lit "[Error getting answer: " ++ exn_str e ++ lit "]", w')
  end.

(** The loop of [faq_loop], one line of input a round, by recursion on
    the lines still to come; called without a [speak_fn]. *)
Fixpoint faq_rounds (client : LLMClient) (faq_text : pystr)
    (lines : list pystr) (faq_pairs : list faq_pair) (w : world)
    : outcome (list faq_pair) * list pystr * world :=
  match lines with
  | [] => (Raised EOFError, [], w)
  | line :: rest =>
    let q := strip line in
    if stops q then (Returned faq_pairs, rest, w)
    else
      let (answer, w') := faq_answer client faq_text q w in
      faq_rounds client faq_text rest (faq_pairs ++ [(q, answer)]) w'
  end.

Definition faq_loop (cfg : config) (faq_file : text_file)
    (s : console * world) : outcome (list faq_pair) * (console * world) :=
  let (c, w) := s in
  match _read_faq_text faq_file with
  | Raise e => (Raised (Propagated e), s)
  | Ok faq_text =>
    let faq_text :=
      match faq_text with [] => NO_FAQ_CONTEXT | _ => faq_text end in
    match LLMClient_init cfg with
    | Raise e => (Raised (Propagated e), s)
    | Ok client =>
      let '(r, rest, w') := faq_rounds client faq_text (stdin c) [] w in
      (r, (set_stdin c rest, w'))
    end
  end.

End WithRuntime.

Definition FAQ_HEADING : pystr := nl ++ lit "### Candidate Q&A" ++ nl.

Definition faq_line (p : faq_pair) : pystr :=
  lit "- **Q:** " ++ fst p ++ nl ++ lit "  **A:** " ++ snd p.

Definition render_faq_md (faq_pairs : list faq_pair) : pystr :=
  match faq_pairs with
  | [] => []
  | _ => join nl (FAQ_HEADING :: List.map faq_line faq_pairs)
  end.

End Faq.

(** ** app/main.py: the stages of [run_interview], in text mode *)

Module Main.
Import Interview Logger Faq.

(** What the run holds on to: the agent, the lines of the logger, the
    terminal and the world of the client. *)
Record run_state := RunState {
  agent : InterviewAgent;
  logger_lines : list pystr;
  term : console;
  net : world;
}.

(** What the stages hand to the saving stage; [session_faq] is the value
    under the key [faq] of the session, empty when the key is not set. *)
Record run_result := RunResult {
  session_obj : session_dict;
  session_faq : list faq_pair;
  summary_md : pystr;
  summary_json : structured;
  faq_markdown : option pystr;
  transcript_lines : list pystr;
}.

(** The answers are all non-empty strings. *)
Definition answered (a : Summarize.answers) : Prop :=
  forall k v, In (k, v) a -> exists t, v = Some t /\ t <> [].

(** What holds between the rounds of the interview: the questions have
    distinct keys, and the answers are those to the questions asked so
    far, in their order. *)
Definition in_order (s : run_state) : Prop :=
  List.NoDup (List.map key (questions (agent s)))
  /\ index (agent s) <= length (questions (agent s))
  /\ keys (answers (agent s))
     = List.map key (firstn (index (agent s)) (questions (agent s)))
  /\ answered (answers (agent s)).

Section WithRuntime.
Context `{rt : Runtime}.
Variable cfg : config.
Variable MIN_ANSWER_CHARS : Z.
Variable principles_file : text_file.
Variable faq_file : text_file.
Variable exn_str : exn -> pystr.

(** One round of the interview loop: the question, the typed answer, its
    recording, the transcript line and the acknowledgement. *)
Definition interview_round (s : run_state) : outcome unit * run_state :=
  let put (ac : Interview.state) (lines : list pystr) :=
    {| agent := fst ac; logger_lines := lines; term := snd ac; net := net s |} in
  match next_question (agent s, term s) with
  | (Raised e, ac) => (Raised e, put ac (logger_lines s))
  | (Returned q, ac) =>
    match input (snd ac) with
    | (Raised e, c) => (Raised e, put (fst ac, c) (logger_lines s))
    | (Returned line, c) =>
      let user := strip line in
      match record_answer MIN_ANSWER_CHARS (key q) (Some user) (fst ac, c) with
      | (Raised e, ac) => (Raised e, put ac (logger_lines s))
      | (Returned _, ac) =>
        let (lines, c) := log_turn (lit "user") user (logger_lines s, snd ac) in
        let ack := acknowledge (Some user) in
        match ack with
        | [] => (Returned tt, put (fst ac, c) lines)
        | _ =>
          let (lines, c) := log_turn (lit "agent") ack (lines, c) in
          (Returned tt, put (fst ac, c) lines)
        end
      end
    end
  end.

(** [while agent.has_next(): ...]; [None] when the fuel runs out. *)
Fixpoint interview_loop (fuel : nat) (s : run_state)
    : option (outcome unit * run_state) :=
  if has_next (agent s) then
    match fuel with
    | 0 => None
    | S fuel' =>
      match interview_round s with
      | (Returned _, s') => interview_loop fuel' s'
      | (Raised e, s') => Some (Raised e, s')
      end
    end
  else Some (Returned tt, s).

(** The question round and the summary. *)
Definition after_interview (s : run_state) : outcome run_result * run_state :=
  match faq_loop exn_str cfg faq_file (term s, net s) with
  | (Raised e, (c, w)) =>
    (Raised e,
     {| agent := agent s; logger_lines := logger_lines s; term := c; net := w |})
  | (Returned faq_pairs, (c, w)) =>
    let session := build_session (agent s) in
    match summarize_session cfg principles_file (summary_input session) w with
    | (Raise e, w') =>
      (Raised (Propagated e),
       {| agent := agent s; logger_lines := logger_lines s; term := c; net := w' |})
    | (Ok (md, st), w') =>
      let faq_md := render_faq_md faq_pairs in
      let extended :=
        match faq_pairs with
        | [] => false
        | _ => match faq_md with [] => false | _ => true end
        end in
      (Returned
         {| session_obj := session;
            session_faq := faq_pairs;
            summary_md :=
              if extended then md ++ nl ++ lit "---" ++ nl ++ faq_md else md;
            summary_json := st;
            faq_markdown := if extended then Some faq_md else None;
            transcript_lines := logger_lines s |},
       {| agent := agent s; logger_lines := logger_lines s; term := c; net := w' |})
    end
  end.

(** The state in which the loop is entered: after [agent.start()]. *)
Definition entry (c : console) (w : world) : run_state :=
  let (a, c) := start (InterviewAgent_init, c) in
  {| agent := a; logger_lines := []; term := c; net := w |}.

(** From [agent.start()] to the summary. No interrupt from the keyboard
    is modelled; every other exception leaves [run_interview]. *)
Definition run_stages (fuel : nat) (c : console) (w : world)
    : option (outcome run_result * run_state) :=
  match interview_loop fuel (entry c w) with
  | None => None
  | Some (Raised e, s) => Some (Raised e, s)
  | Some (Returned _, s) => Some (after_interview s)
  end.

End WithRuntime.
End Main.

(** The inputs of the further examples. *)

Module MoreSamples.

(** A backend that answers with a JSON array; the cache directory
    cannot be written. *)
Definition array_world : world := {|
  cache_files := ∅;
  cache_writable := fun _ => false;
  provider := fun _ _ _ => Ok (lit "[1]");
  calls := [] |}.

(** A backend that answers in prose; the cache directory cannot be
    written. *)
Definition prose_world : world := {|
  cache_files := ∅;
  cache_writable := fun _ => false;
  provider := fun _ _ _ => Ok (lit "I would rather not say.");
  calls := [] |}.

(** A backend whose answer holds a lone surrogate. *)
Definition surrogate_world : world := {|
  cache_files := ∅;
  cache_writable := fun _ => true;
  provider := fun _ _ _ => Ok [104%N; 55357%N];
  calls := [] |}.

(** A backend that answers, over a cache directory that cannot be
    written. *)
Definition readonly_world : world := {|
  cache_files := ∅;
  cache_writable := fun _ => false;
  provider := fun _ _ _ => Ok (lit "{}");
  calls := [] |}.

(** The Mistral backend without its key. *)
Definition keyless_config : config := {|
  USE_LLM_SUMMARY := false;
  SUMMARY_ANSWER_CAP := 800;
  LLM_BACKEND := lit "mistral";
  OPENAI_API_KEY := None;
  OPENAI_MODEL := lit "gpt-4o-mini";
  OPENAI_FALLBACK_MODEL := lit "gpt-4o";
  MISTRAL_API_KEY := None;
  MISTRAL_MODEL := lit "mistral-medium-latest" |}.

Definition sample_exn_str (e : exn) : pystr :=
  match e with
  | AttributeError => lit "attribute error"
  | RuntimeError => lit "MISTRAL_API_KEY not set in env"
  | ValueError => lit "Unsupported backend"
  | OSError => lit "Permission denied"
  | UnicodeDecodeError => lit "'utf-8' codec can't decode byte"
  | UnicodeEncodeError => lit "'utf-8' codec can't encode character"
  | LibraryError _ => lit "Service Unavailable"
  end.

(** A candidate who answers the second question too briefly at first,
    asks four questions and ends the round. *)
Definition sample_console : console := {|
  stdin := [
    lit "Ten years of nursing, now learning Python.";
    lit "hm";
    lit "I like the mentors";
    lit "Two dashboards in SQL and a Kaggle notebook";
    lit "Work as a data analyst";
    lit "ready next month";
    lit "What is the schedule?";
    lit "Is there a job guarantee?";
    lit "How long is it?";
    lit "  Who teaches?  ";
    lit "Done" ];
  isoformat_at := fun _ => lit "2024-05-01T10:00:00";
  strftime_at := fun _ => lit "2024-05-01 10:00:00";
  clock_reads := 0 |}.

(** A candidate whose first answer is too short. *)
Definition brief_console : console := {|
  stdin := [lit "hm"; lit "Ten years of nursing"];
  isoformat_at := fun _ => lit "2024-05-01T10:00:00";
  strftime_at := fun _ => lit "2024-05-01 10:00:00";
  clock_reads := 0 |}.

End MoreSamples.

(** * Properties of the pipeline *)

(** Literals are kept folded in the proofs. *)
Global Opaque lit tq.

(** ** Strings *)

Lemma str_eqb_eq a b : str_eqb a b = true <-> a = b.
Proof.
  revert b; induction a as [|x a IH]; intros [|y b]; simpl; try easy.
  rewrite andb_true_iff, N.eqb_eq, IH. split.
  - intros [-> ->]; reflexivity.
  - intros [= -> ->]; auto.
Qed.

Lemma str_eqb_refl a : str_eqb a a = true.
Proof. apply str_eqb_eq; reflexivity. Qed.

Lemma str_eqb_neq a b : str_eqb a b = false <-> a <> b.
Proof.
  rewrite <- str_eqb_eq. destruct (str_eqb a b); split; congruence.
Qed.


(** ** Schema coercion *)

Section Coercion.
Context `{rt : Runtime}.

Lemma read_principles_readable pf :
  readable pf = true -> _read_principles pf = Ok (principles_text pf).
Proof.
  destruct pf; first [reflexivity | intros H; inversion H].
Qed.

Lemma read_principles_fails pf :
  readable pf = false -> exists e, pf = Fails e /\ _read_principles pf = Raise e.
Proof.
  destruct pf; try (intros H; inversion H; fail). eauto.
Qed.

Lemma coerce_schema_steps pf d a :
  _coerce_schema pf (PDict d) a =
  match py_or (field d (lit "notes")) (PDict []) with
  | PDict nd =>
    let* text := _read_principles pf in
    let* al := alignment (py_or (field d (lit "principles_alignment")) (PDict []))
                 (principle_names text) [] in
    Ok (coerced d nd a al)
  | _ => Raise AttributeError
  end.
Proof.
  unfold _coerce_schema. cbn [py_get py_get_default bind].
  fold (field d (lit "notes")).
  destruct (py_or (field d (lit "notes")) (PDict [])) as [| | | | |l|nd];
    unfold note; cbn [py_get py_get_default bind]; try reflexivity.
Qed.

Lemma coerce_schema_dict pf d a :
  readable pf = true ->
  _coerce_schema pf (PDict d) a =
  match py_or (field d (lit "notes")) (PDict []) with
  | PDict nd =>
    let* al := alignment (py_or (field d (lit "principles_alignment")) (PDict []))
                 (principle_names (principles_text pf)) [] in
    Ok (coerced d nd a al)
  | _ => Raise AttributeError
  end.
Proof.
  intros Hr. rewrite coerce_schema_steps, (read_principles_readable _ Hr).
  reflexivity.
Qed.

(** With a principles file that cannot be read, coercion raises. *)
Lemma coerce_schema_unreadable pf raw a :
  readable pf = false -> exists e, _coerce_schema pf raw a = Raise e.
Proof.
  intros Hr. destruct (read_principles_fails _ Hr) as (e & -> & He).
  destruct (is_dict raw) eqn:Hd.
  - destruct raw; try (inversion Hd; fail). rewrite coerce_schema_steps.
    destruct (py_or _ _); cbn [_read_principles bind]; eauto.
  - exists AttributeError. unfold _coerce_schema.
    destruct raw; cbn [is_dict py_get py_get_default bind] in *;
      first [reflexivity | inversion Hd].
Qed.

Lemma coerce_schema_readable pf raw a st :
  _coerce_schema pf raw a = Ok st -> readable pf = true.
Proof.
  intros H. destruct (readable pf) eqn:Hr; [reflexivity|].
  destruct (coerce_schema_unreadable pf raw a Hr) as [e He].
  rewrite He in H. inversion H.
Qed.

Lemma coerce_schema_nondict pf raw a :
  is_dict raw = false -> _coerce_schema pf raw a = Raise AttributeError.
Proof.
  unfold _coerce_schema. destruct raw; cbn [is_dict py_get py_get_default bind];
    intros H; first [reflexivity | inversion H].
Qed.

Lemma coerce_schema_inv pf raw a st :
  _coerce_schema pf raw a = Ok st ->
  exists d nd al,
    raw = PDict d
    /\ py_or (field d (lit "notes")) (PDict []) = PDict nd
    /\ alignment (py_or (field d (lit "principles_alignment")) (PDict []))
         (principle_names (principles_text pf)) [] = Ok al
    /\ st = coerced d nd a al.
Proof.
  intros H0. pose proof (coerce_schema_readable _ _ _ _ H0) as Hr.
  revert H0.
  destruct (is_dict raw) eqn:Hd.
  - destruct raw; try (inversion Hd; fail).
    rewrite coerce_schema_dict by exact Hr.
    destruct (py_or _ _) as [| | | | |l|nd] eqn:En; try (intros H; inversion H; fail).
    destruct (alignment _ _ _) as [al|e] eqn:Eal; cbn [bind];
      intros H; inversion H; subst. eauto 10.
  - rewrite coerce_schema_nondict by assumption. intros H; inversion H.
Qed.


(** *** The alignment mapping *)

Lemma str_eqb_sym a b : str_eqb a b = str_eqb b a.
Proof.
  destruct (str_eqb a b) eqn:E.
  - apply str_eqb_eq in E; subst. symmetry; apply str_eqb_refl.
  - apply str_eqb_neq in E. symmetry; apply str_eqb_neq. congruence.
Qed.

Lemma alignment_dict pa names acc :
  alignment (PDict pa) names acc
  = Ok (fold_left (fun acc n => dict_set acc n (evidence pa n)) names acc).
Proof.
  revert acc; induction names as [|n names IH]; intros acc; cbn; [reflexivity|].
  apply IH.
Qed.

Lemma alignment_nondict pa n names acc :
  is_dict pa = false -> alignment pa (n :: names) acc = Raise AttributeError.
Proof. destruct pa; cbn; intros H; first [reflexivity | inversion H]. Qed.

Lemma dict_set_aligned pa l n :
  dict_set (aligned_with pa l) n (evidence pa n)
  = aligned_with pa (if mem n l then l else l ++ [n]).
Proof.
  unfold aligned_with, mem.
  induction l as [|k l IH]; cbn [List.map dict_set existsb app fst];
    [reflexivity|].
  rewrite (str_eqb_sym n k). destruct (str_eqb k n) eqn:E; cbn [orb].
  - apply str_eqb_eq in E; subst; reflexivity.
  - rewrite IH. destruct (existsb _ l); reflexivity.
Qed.

Lemma filter_filter_and {A} (f g : A -> bool) l :
  List.filter f (List.filter g l) = List.filter (fun x => f x && g x) l.
Proof.
  induction l as [|x l IH]; cbn; [reflexivity|].
  destruct (g x); cbn; rewrite ?andb_true_r, ?andb_false_r;
    [destruct (f x)|]; rewrite IH; reflexivity.
Qed.

Lemma filter_ext_bool {A} (f g : A -> bool) l :
  (forall x, f x = g x) -> List.filter f l = List.filter g l.
Proof.
  intros H; induction l as [|x l IH]; cbn; [reflexivity|].
  rewrite H, IH; reflexivity.
Qed.

Lemma mem_app n l1 l2 : mem n (l1 ++ l2) = mem n l1 || mem n l2.
Proof. unfold mem. apply existsb_app. Qed.

Lemma fold_alignment pa names l :
  fold_left (fun acc n => dict_set acc n (evidence pa n)) names
    (aligned_with pa l)
  = aligned_with pa
      (l ++ List.filter (fun m => negb (mem m l)) (first_occurrences names)).
Proof.
  revert l; induction names as [|n names IH]; intros l.
  - cbn. rewrite app_nil_r. reflexivity.
  - cbn [fold_left first_occurrences List.filter].
    rewrite dict_set_aligned, IH. f_equal.
    destruct (mem n l) eqn:Hm; cbn [negb].
    + f_equal. rewrite filter_filter_and. apply filter_ext_bool.
      intros m. destruct (str_eqb n m) eqn:E; cbn; [|symmetry; apply andb_true_r].
      apply str_eqb_eq in E; subst. rewrite Hm. reflexivity.
    + rewrite <- app_assoc. cbn. do 2 f_equal.
      rewrite filter_filter_and. apply filter_ext_bool.
      intros m. rewrite mem_app. cbn. rewrite orb_false_r, negb_orb.
      rewrite (str_eqb_sym n m). reflexivity.
Qed.

Lemma alignment_dict_first pa names :
  alignment (PDict pa) names []
  = Ok (aligned_with pa (first_occurrences names)).
Proof.
  rewrite alignment_dict. change (@nil (pystr * pyval)) with (aligned_with pa []).
  rewrite fold_alignment. cbn [app]. do 2 f_equal.
  induction (first_occurrences names) as [|x l IH]; cbn; [reflexivity|].
  f_equal. exact IH.
Qed.

Lemma mem_filter_neq n k l :
  str_eqb n k = false ->
  mem n (List.filter (fun m => negb (str_eqb k m)) l) = mem n l.
Proof.
  intros E. unfold mem. induction l as [|x l IH]; cbn [List.filter existsb];
    [reflexivity|].
  destruct (str_eqb k x) eqn:Ex; cbn [negb existsb].
  - apply str_eqb_eq in Ex; subst. rewrite E. exact IH.
  - rewrite IH. reflexivity.
Qed.

Lemma first_occurrences_mem n l : mem n (first_occurrences l) = mem n l.
Proof.
  induction l as [|k l IH]; [reflexivity|].
  cbn [first_occurrences].
  change (str_eqb n k || mem n (List.filter (fun m => negb (str_eqb k m))
                                  (first_occurrences l))
          = str_eqb n k || mem n l).
  destruct (str_eqb n k) eqn:E; cbn [orb]; [reflexivity|].
  rewrite <- IH. apply mem_filter_neq. exact E.
Qed.

Lemma first_occurrences_nodup l : List.NoDup (first_occurrences l).
Proof.
  induction l as [|k l IH]; cbn; constructor.
  - rewrite filter_In. intros [_ H]. rewrite str_eqb_refl in H. inversion H.
  - apply List.NoDup_filter. exact IH.
Qed.


(** *** Shortening *)

Lemma lstrip_length s : length (lstrip s) <= length s.
Proof.
  induction s as [|c s IH]; cbn; [lia|]. destruct (isspace c); cbn; lia.
Qed.

Lemma rstrip_length s : length (rstrip s) <= length s.
Proof.
  unfold rstrip. rewrite length_rev.
  etransitivity; [apply lstrip_length|]. rewrite length_rev. lia.
Qed.

Lemma ELLIPSIS_length : length ELLIPSIS = 1.
Proof. vm_compute. reflexivity. Qed.

Lemma shorten_cases s n :
  (length (strip s) <= n /\ _shorten s n = strip s)
  \/ (n < length (strip s)
      /\ _shorten s n = rstrip (upto n (strip s)) ++ ELLIPSIS).
Proof.
  unfold _shorten. destruct s as [|c s].
  - left. split; [cbn; lia | reflexivity].
  - destruct (length (strip (c :: s)) <=? n) eqn:E.
    + left. apply Nat.leb_le in E. auto.
    + right. apply Nat.leb_gt in E. auto.
Qed.

Lemma shorten_length s n : length (_shorten s n) <= S n.
Proof.
  destruct (shorten_cases s n) as [[H ->]|[H ->]]; [lia|].
  rewrite length_app, ELLIPSIS_length.
  pose proof (rstrip_length (upto n (strip s))) as Hr.
  unfold upto in *. rewrite length_firstn in Hr. lia.
Qed.

(** *** Readiness *)

Lemma infer_readiness_literal text :
  is_readiness_literal (PStr (infer_readiness text)) = true.
Proof.
  unfold infer_readiness. destruct text as [|c text]; [vm_compute; reflexivity|].
  destruct (any_in READY_NOW_WORDS _); [vm_compute; reflexivity|].
  destruct (any_in DATE_WORDS _); [vm_compute; reflexivity|].
  destruct (any_in NEEDS_PREP_WORDS _); vm_compute; reflexivity.
Qed.


(** *** Totality *)

Lemma py_or_cases v :
  (mapping_or_falsy v = true /\ exists m, py_or v (PDict []) = PDict m)
  \/ (mapping_or_falsy v = false /\ is_dict (py_or v (PDict [])) = false).
Proof.
  unfold mapping_or_falsy, py_or.
  destruct v as [|b|z|f|s|l|d]; cbn [is_dict truthy orb negb]; eauto.
  - destruct b; cbn; eauto.
  - destruct (z =? 0)%Z; cbn; eauto.
  - destruct f as [m e| |]; cbn; eauto. destruct (m =? 0)%Z; cbn; eauto.
  - destruct s; cbn; eauto.
  - destruct l; cbn; eauto.
  - left. split; [reflexivity|]. destruct d; eauto.
Qed.

(** C2, as amended: with a principles file that is missing or can be
    read, on a raw mapping, coercion returns a complete record exactly
    when the value under [notes] is absent, falsy or a mapping, and the
    value under [principles_alignment] is absent, falsy or a mapping or
    no principle name is parsed; the other keys may hold values of any
    type. Otherwise it raises [AttributeError]. With a principles file
    that is there and cannot be read, it raises on every raw mapping. *)
Theorem coerce_schema_total_on_mappings pf d a :
  (readable pf = true ->
   if coercible pf d
   then exists st, _coerce_schema pf (PDict d) a = Ok st
   else _coerce_schema pf (PDict d) a = Raise AttributeError)
  /\ (readable pf = false ->
      exists e, _coerce_schema pf (PDict d) a = Raise e).
Proof.
  split; [|apply coerce_schema_unreadable].
  intros Hr. rewrite coerce_schema_dict by exact Hr. unfold coercible.
  destruct (py_or_cases (field d (lit "notes"))) as [[-> [nd ->]]|[-> Hn]];
    cbn [andb].
  - destruct (py_or_cases (field d (lit "principles_alignment")))
      as [[-> [pd ->]]|[-> Hp]]; cbn [orb].
    + rewrite alignment_dict_first. cbn [bind]. eauto.
    + destruct (principle_names (principles_text pf)) as [|n names].
      * cbn. eauto.
      * rewrite alignment_nondict by exact Hp. reflexivity.
  - destruct (py_or (field d (lit "notes")) (PDict []));
      first [reflexivity | inversion Hn].
Qed.

(** *** The readiness flag *)

(** The readiness flag of the coerced record is the model's value
    whenever that value is truthy, whatever it is; otherwise it is one of
    the four literals, derived from the lower-cased readiness answer by
    substring search, the categories tried in the listed order and
    [unknown] the default. *)
Lemma readiness_flag_of_record pf raw a st :
  _coerce_schema pf raw a = Ok st ->
  let model := supplied raw (lit "readiness_flag") in
  let text := pick a [lit "readiness"] in
  let t := str_lower text in
  (truthy model = true -> readiness_flag st = model)
  /\ (truthy model = false ->
      is_readiness_literal (readiness_flag st) = true
      /\ (text = [] -> readiness_flag st = PStr (lit "unknown"))
      /\ (text <> [] ->
          any_in [lit "immediate"; lit "ready"; lit "now"] t = true ->
          readiness_flag st = PStr (lit "ready_now"))
      /\ (text <> [] ->
          any_in [lit "immediate"; lit "ready"; lit "now"] t = false ->
          any_in [lit "week"; lit "month"; lit " from "; lit "start "] t = true ->
          readiness_flag st = PStr (lit "date"))
      /\ (text <> [] ->
          any_in [lit "immediate"; lit "ready"; lit "now"] t = false ->
          any_in [lit "week"; lit "month"; lit " from "; lit "start "] t = false ->
          any_in [lit "prep"; lit "support"; lit "refresh"; lit "not ready"] t
          = true ->
          readiness_flag st = PStr (lit "needs_prep"))
      /\ (text <> [] ->
          any_in [lit "immediate"; lit "ready"; lit "now"] t = false ->
          any_in [lit "week"; lit "month"; lit " from "; lit "start "] t = false ->
          any_in [lit "prep"; lit "support"; lit "refresh"; lit "not ready"] t
          = false ->
          readiness_flag st = PStr (lit "unknown"))).
Proof.
  intros H model text t.
  destruct (coerce_schema_inv _ _ _ _ H) as (d & nd & al & -> & _ & _ & ->).
  cbn [readiness_flag coerced]. subst model. cbn [supplied]. unfold py_or.
  split; intros ->; [reflexivity|].
  fold text. split; [apply infer_readiness_literal|].
  unfold infer_readiness. fold t.
  change READY_NOW_WORDS with [lit "immediate"; lit "ready"; lit "now"].
  change DATE_WORDS with [lit "week"; lit "month"; lit " from "; lit "start "].
  change NEEDS_PREP_WORDS
    with [lit "prep"; lit "support"; lit "refresh"; lit "not ready"].
  repeat split.
  - intros ->. reflexivity.
  - intros Hne ->. destruct text; [contradiction|reflexivity].
  - intros Hne -> ->. destruct text; [contradiction|reflexivity].
  - intros Hne -> -> ->. destruct text; [contradiction|reflexivity].
  - intros Hne -> -> ->. destruct text; [contradiction|reflexivity].
Qed.

(** *** The alignment mapping of the record *)

Lemma mem_In n l : mem n l = true <-> In n l.
Proof.
  unfold mem. rewrite existsb_exists. split.
  - intros (x & Hx & E). apply str_eqb_eq in E. subst. exact Hx.
  - intros Hn. exists n. split; [exact Hn | apply str_eqb_refl].
Qed.

Lemma first_occurrences_In n l : In n (first_occurrences l) <-> In n l.
Proof. rewrite <- !mem_In, first_occurrences_mem. reflexivity. Qed.

Lemma keys_aligned_with pa l : keys (aligned_with pa l) = l.
Proof.
  unfold keys, aligned_with. rewrite List.map_map. cbn. apply List.map_id.
Qed.

Lemma dict_get_aligned_with pa l n :
  In n l -> dict_get (aligned_with pa l) n = Some (evidence pa n).
Proof.
  unfold aligned_with. induction l as [|k l IH]; cbn [List.map dict_get In];
    [contradiction|].
  intros Hn. destruct (str_eqb k n) eqn:E.
  - apply str_eqb_eq in E. subst. reflexivity.
  - apply IH. destruct Hn as [->|Hn]; [|exact Hn].
    rewrite str_eqb_refl in E. inversion E.
Qed.

Lemma filter_all_true {A} (f : A -> bool) l :
  (forall x, In x l -> f x = true) -> List.filter f l = l.
Proof.
  induction l as [|x l IH]; cbn; intros H; [reflexivity|].
  rewrite (H x) by auto. f_equal. apply IH. auto.
Qed.

Lemma first_occurrences_distinct l :
  List.NoDup l -> first_occurrences l = l.
Proof.
  induction 1 as [|n l Hn Hl IH]; cbn [first_occurrences]; [reflexivity|].
  rewrite IH. f_equal. apply filter_all_true.
  intros m Hm. destruct (str_eqb n m) eqn:E; [|reflexivity].
  apply str_eqb_eq in E. subst. contradiction.
Qed.

(** C7, as amended: the keys of [principles_alignment] are the distinct
    principle names parsed from the principles text, each once, in the
    order of their first occurrence (a repeated name is one key; names
    that are all distinct are the keys in their parse order); each is
    mapped to the value the model supplied under that exact name, whatever
    it is, and to the empty string when the model supplied none. *)
Theorem principles_alignment_spec pf raw a st :
  _coerce_schema pf raw a = Ok st ->
  let names := principle_names (principles_text pf) in
  let pa := supplied_mapping raw (lit "principles_alignment") in
  principles_alignment st = aligned_with pa (first_occurrences names)
  /\ keys (principles_alignment st) = first_occurrences names
  /\ List.NoDup (keys (principles_alignment st))
  /\ (List.NoDup names -> keys (principles_alignment st) = names)
  /\ (forall name, In name (keys (principles_alignment st)) <-> In name names)
  /\ (forall name, In name names ->
      dict_get (principles_alignment st) name
      = Some (match dict_get pa name with Some v => v | None => PStr [] end)).
Proof.
  intros H names pa.
  destruct (coerce_schema_inv _ _ _ _ H) as (d & nd & al & -> & _ & Hal & ->).
  cbn [principles_alignment coerced]. fold names in Hal.
  assert (al = aligned_with pa (first_occurrences names)) as ->.
  { subst pa. unfold supplied_mapping. cbn [supplied].
    destruct (py_or_cases (field d (lit "principles_alignment")))
      as [[_ [pd Hpd]]|[_ Hp]].
    - rewrite Hpd in *. rewrite alignment_dict_first in Hal.
      inversion Hal. reflexivity.
    - destruct names as [|n names'].
      + cbn in Hal. inversion Hal. reflexivity.
      + rewrite alignment_nondict in Hal by exact Hp. inversion Hal. }
  rewrite keys_aligned_with. split; [reflexivity|]. split; [reflexivity|].
  split; [apply first_occurrences_nodup|].
  split; [apply first_occurrences_distinct|].
  split; [intros name; apply first_occurrences_In|].
  intros name Hn. apply dict_get_aligned_with, first_occurrences_In, Hn.
Qed.

(** *** The notes of the record *)

(** C8, as amended: each note is the value the model supplied under that
    key when it is truthy, taken as it is and of any length; otherwise it
    is the stripped raw answer when that has at most 220 characters, and
    else its first 220 characters, stripped on the right, followed by one
    ellipsis character: at most 221 characters. *)
Theorem notes_spec pf raw a st (k : semantic_key) :
  _coerce_schema pf raw a = Ok st ->
  let model := field (supplied_mapping raw (lit "notes")) (key_name k) in
  let answer := at_key k (raw_answers st) in
  at_key k (notes st)
  = (if truthy model then model else PStr (_shorten answer 220))
  /\ length (_shorten answer 220) <= 221
  /\ (length (strip answer) <= 220 -> _shorten answer 220 = strip answer)
  /\ (220 < length (strip answer) ->
      _shorten answer 220 = rstrip (upto 220 (strip answer)) ++ lit "…").
Proof.
  intros H model answer.
  destruct (coerce_schema_inv _ _ _ _ H) as (d & nd & al & -> & Hnd & _ & ->).
  split.
  - subst model answer. unfold supplied_mapping. cbn [supplied].
    rewrite Hnd. destruct k; reflexivity.
  - split; [apply shorten_length|].
    destruct (shorten_cases answer 220) as [[Hl Hs]|[Hl Hs]];
      split; intros Hlen; first [exact Hs | lia].
Qed.

End Coercion.

(** ** Response extraction *)

Lemma find_app {A} (f : A -> bool) l1 l2 :
  List.find f (l1 ++ l2)
  = match List.find f l1 with Some x => Some x | None => List.find f l2 end.
Proof.
  induction l1 as [|x l1 IH]; cbn; [reflexivity|].
  destruct (f x); [reflexivity | exact IH].
Qed.

Lemma find_all_false {A} (f : A -> bool) l :
  (forall x, In x l -> f x = false) -> List.find f l = None.
Proof.
  induction l as [|x l IH]; cbn; intros H; [reflexivity|].
  rewrite (H x) by auto. apply IH. auto.
Qed.

Lemma map_nth_seq {A} (l : list A) d :
  List.map (fun j => nth j l d) (seq 0 (length l)) = l.
Proof.
  induction l as [|x l IH]; cbn [length seq List.map nth]; [reflexivity|].
  f_equal. rewrite <- seq_shift, List.map_map. exact IH.
Qed.

Section Extraction.
Context `{rt : Runtime}.

Lemma extract_json_block_unfold text :
  text <> [] ->
  _extract_json_block text
  = if fenced_decodes text then fenced_candidate text
    else match List.find decodes (brace_spans text) with
         | Some s => Some s
         | None => if decodes (strip text) then Some (strip text) else None
         end.
Proof.
  intros Hne. unfold _extract_json_block, fenced_decodes.
  destruct text as [|c text]; [contradiction|].
  destruct (fenced_candidate (c :: text)) as [cand|]; [|reflexivity].
  destruct (decodes cand); reflexivity.
Qed.

Lemma brace_spans_In text s : In s (brace_spans text) -> brace_span text s.
Proof.
  unfold brace_spans. rewrite in_flat_map. intros (i & Hi & Hs).
  apply in_map_iff in Hs. destruct Hs as (j & <- & Hj).
  apply in_rev, in_seq in Hj. apply in_seq in Hi.
  exists (nth i (positions 123%N text) 0), (nth j (positions 125%N text) 0).
  split; [apply nth_In; lia|]. split; [apply nth_In; lia|]. reflexivity.
Qed.

Lemma brace_spans_first text o opens :
  positions 123%N text = o :: opens ->
  exists rest,
    brace_spans text
    = List.map (fun c => slice text o (S c)) (rev (positions 125%N text))
      ++ rest.
Proof.
  intros Ho. unfold brace_spans. rewrite Ho.
  generalize (positions 125%N text) as closes. intros closes.
  cbn [length seq flat_map nth]. eexists. apply f_equal2; [|reflexivity].
  rewrite Nat.sub_0_r.
  replace (rev closes)
    with (rev (List.map (fun j => nth j closes 0) (seq 0 (length closes))))
    by (rewrite map_nth_seq; reflexivity).
  rewrite <- List.map_rev, List.map_map. reflexivity.
Qed.

(** C5, as amended: extraction never raises and accepts any JSON value,
    not only an object. [_extract_json_block] returns nothing on the empty
    text; the stripped content of the first fenced block when that
    decodes; otherwise, when a span from the first opening brace to a
    closing brace decodes, the first such span with the closing braces
    taken from the last one backward; whatever it returns decodes and is
    the fenced content, a span from an opening to a closing brace, or the
    stripped text; and when neither the fenced block nor any brace span
    decodes it returns the stripped text if that decodes and nothing
    otherwise. [_safe_json_parse] decodes the whole text first, then the
    block extracted, and returns the empty mapping when there is none. *)
Theorem extraction_spec text :
  (text = [] -> _extract_json_block text = None)
  /\ (forall cand,
       text <> [] -> fenced_candidate text = Some cand ->
       decodes cand = true ->
       _extract_json_block text = Some cand)
  /\ (forall o s,
       text <> [] -> fenced_decodes text = false ->
       hd_error (positions 123%N text) = Some o ->
       List.find decodes
         (List.map (fun c => slice text o (S c)) (rev (positions 125%N text)))
       = Some s ->
       _extract_json_block text = Some s)
  /\ (forall s,
       _extract_json_block text = Some s ->
       decodes s = true
       /\ (fenced_candidate text = Some s \/ brace_span text s
           \/ s = strip text))
  /\ (text <> [] -> fenced_decodes text = false ->
      (forall s, brace_span text s -> decodes s = false) ->
      _extract_json_block text
      = if decodes (strip text) then Some (strip text) else None)
  /\ (forall v, text <> [] -> json_loads text = Some v ->
      _safe_json_parse text = v)
  /\ (forall s v,
       json_loads text = None -> _extract_json_block text = Some s ->
       json_loads s = Some v -> s <> [] ->
       _safe_json_parse text = v)
  /\ (json_loads text = None -> _extract_json_block text = None ->
      _safe_json_parse text = PDict []).
Proof.
  split; [intros ->; reflexivity|].
  split.
  { intros cand Hne Hf Hd. rewrite extract_json_block_unfold by exact Hne.
    unfold fenced_decodes. rewrite Hf, Hd. reflexivity. }
  split.
  { intros o s Hne Hf Ho Hs. rewrite extract_json_block_unfold by exact Hne.
    rewrite Hf. destruct (positions 123%N text) as [|o' opens] eqn:Eo;
      [inversion Ho|].
    cbn in Ho. inversion Ho; subst o'.
    destruct (brace_spans_first _ _ _ Eo) as [rest ->].
    rewrite find_app, Hs. reflexivity. }
  split.
  { intros s. destruct text as [|c text]; [intros H; inversion H|].
    rewrite extract_json_block_unfold by (intros H; inversion H).
    unfold fenced_decodes.
    destruct (fenced_candidate (c :: text)) as [cand|] eqn:Ef.
    - destruct (decodes cand) eqn:Ed.
      + intros [= ->]. auto.
      + destruct (List.find decodes _) as [s'|] eqn:Es.
        * intros [= ->]. apply find_some in Es. destruct Es as [Hin Hd].
          split; [exact Hd|]. right. left. apply brace_spans_In. exact Hin.
        * destruct (decodes (strip (c :: text))) eqn:Ew; intros H;
            inversion H; subst. auto.
    - destruct (List.find decodes _) as [s'|] eqn:Es.
      + intros [= ->]. apply find_some in Es. destruct Es as [Hin Hd].
        split; [exact Hd|]. right. left. apply brace_spans_In. exact Hin.
      + destruct (decodes (strip (c :: text))) eqn:Ew; intros H;
          inversion H; subst. auto. }
  split.
  { intros Hne Hf Hall. rewrite extract_json_block_unfold by exact Hne.
    rewrite Hf, find_all_false; [reflexivity|].
    intros s Hin. apply Hall, brace_spans_In, Hin. }
  split.
  { intros v Hne Hv. unfold _safe_json_parse.
    destruct text; [contradiction|]. rewrite Hv. reflexivity. }
  split.
  { intros s v Hn Hs Hv Hne. unfold _safe_json_parse.
    destruct text as [|c text]; [inversion Hs|]. rewrite Hn, Hs.
    destruct s; [contradiction|]. rewrite Hv. reflexivity. }
  intros Hn Hs. unfold _safe_json_parse.
  destruct text; [reflexivity|]. rewrite Hn, Hs. reflexivity.
Qed.

End Extraction.

(** ** The model client *)

Section Client.
Context `{rt : Runtime}.

(** *** The path of a cache entry *)

Lemma cache_path_cases prompt model :
  (encodable (model ++ nl ++ prompt) = true
   /\ _cache_path prompt model = Ok (cache_file prompt model))
  \/ (encodable (model ++ nl ++ prompt) = false
      /\ _cache_path prompt model = Raise UnicodeEncodeError).
Proof.
  unfold _cache_path, cache_file.
  destruct (encodable (model ++ nl ++ prompt)); auto.
Qed.

Lemma cache_path_ok prompt model p :
  _cache_path prompt model = Ok p -> p = cache_file prompt model.
Proof.
  destruct (cache_path_cases prompt model) as [[_ ->]|[_ ->]];
    intros H; inversion H; reflexivity.
Qed.

Lemma cache_path_raise prompt model e :
  _cache_path prompt model = Raise e ->
  e = UnicodeEncodeError /\ forall p, _cache_path prompt model <> Ok p.
Proof.
  destruct (cache_path_cases prompt model) as [[_ ->]|[_ ->]];
    intros H; inversion H. split; [reflexivity|]. intros p X; inversion X.
Qed.

Lemma cache_get_path prompt model w :
  _cache_get prompt model w
  = let* p := _cache_path prompt model in
    Ok match cache_files w !! p with
       | Some (Stored data) => Some (read_newlines data)
       | _ => None
       end.
Proof.
  unfold _cache_get. cbn [ENABLE_CACHE negb].
  destruct (_cache_path prompt model) as [p|e]; cbn [bind]; [|reflexivity].
  destruct (cache_files w !! p) as [[|data]|]; reflexivity.
Qed.


Lemma cache_get_raise prompt model w e :
  _cache_get prompt model w = Raise e -> _cache_path prompt model = Raise e.
Proof.
  rewrite cache_get_path.
  destruct (_cache_path prompt model); cbn [bind]; intros H; inversion H.
  reflexivity.
Qed.


Lemma cache_get_same_files prompt model w w' :
  cache_files w' = cache_files w ->
  _cache_get prompt model w' = _cache_get prompt model w.
Proof. intros H. rewrite !cache_get_path, H. reflexivity. Qed.

Lemma cache_set_calls prompt model text w :
  calls (_cache_set prompt model text w) = calls w.
Proof.
  unfold _cache_set. cbn [ENABLE_CACHE negb].
  destruct (_cache_path prompt model) as [p|e]; [|reflexivity].
  destruct (cache_writable w p); [|reflexivity].
  destruct (existsb is_surrogate text); reflexivity.
Qed.

Lemma cache_set_other prompt model text w p :
  _cache_path prompt model <> Ok p ->
  cache_files (_cache_set prompt model text w) !! p = cache_files w !! p.
Proof.
  intros Hp. unfold _cache_set. cbn [ENABLE_CACHE negb].
  destruct (_cache_path prompt model) as [p0|e]; [|reflexivity].
  destruct (cache_writable w p0); [|reflexivity].
  destruct (existsb is_surrogate text); cbn [set_files cache_files];
    apply lookup_insert_ne; congruence.
Qed.

(** The text written to a cache file and read back. *)
Lemma newlines_roundtrip t :
  linesep = nl -> existsb (N.eqb 13) t = false ->
  read_newlines (write_newlines t) = t.
Proof.
  intros Hsep. unfold write_newlines. rewrite Hsep.
  induction t as [|c t IH]; cbn [existsb flat_map]; [reflexivity|].
  rewrite orb_false_iff. intros [Hc Ht].
  assert ((c =? 13)%N = false) as Hc' by (rewrite N.eqb_sym; exact Hc).
  destruct (c =? 10)%N eqn:E; cbn [app nl read_newlines].
  - apply N.eqb_eq in E. subst c. cbn. f_equal. apply IH, Ht.
  - rewrite Hc'. f_equal. apply IH, Ht.
Qed.

Lemma cache_set_get prompt model p t w :
  _cache_path prompt model = Ok p ->
  cache_writable w p = true ->
  existsb is_surrogate t = false ->
  read_newlines (write_newlines t) = t ->
  _cache_get prompt model (_cache_set prompt model t w) = Ok (Some t).
Proof.
  intros Hp Hw Hs Hn. rewrite cache_get_path. unfold _cache_set.
  cbn [ENABLE_CACHE negb]. rewrite Hp. cbn [bind]. rewrite Hw, Hs.
  cbn [set_files cache_files]. rewrite lookup_insert_eq, Hn. reflexivity.
Qed.

Lemma generate_hit c prompt w t :
  _cache_get prompt (cache_model c) w = Ok (Some t) ->
  generate c prompt w = (Ok t, w).
Proof. intros H. unfold generate. rewrite H. reflexivity. Qed.

(** A path that cannot be encoded: the exception leaves [generate]
    before the lookup and before any outbound call. *)
Lemma generate_unencodable c prompt w e :
  _cache_get prompt (cache_model c) w = Raise e ->
  generate c prompt w = (Raise e, w).
Proof. intros H. unfold generate. rewrite H. reflexivity. Qed.

Lemma generate_miss c prompt w :
  _cache_get prompt (cache_model c) w = Ok None ->
  miss_outcome c prompt w (generate c prompt w).
Proof.
  intros H. unfold generate. rewrite H.
  destruct c as [primary fallback|m];
    unfold io_bind, try_except, _call_openai, _call_mistral, outbound, lift.
  - destruct (provider w (length (calls w)) primary prompt) as [t|e] eqn:E1.
    + apply (miss_first _ _ _ primary t); [reflexivity | exact E1].
    + destruct fallback as [|f0 fallback].
      * apply (miss_raise _ _ _ primary e); [reflexivity | exact I | exact E1].
      * cbn [provider calls].
        replace (length (calls w ++ [(primary, prompt)]))
          with (S (length (calls w))) by (rewrite length_app; cbn; lia).
        pose proof (miss_fallback (OpenAIClient primary (f0 :: fallback))
                      prompt w primary (f0 :: fallback) e _ eq_refl
                      ltac:(intros X; inversion X) E1 eq_refl) as M.
        destruct (provider w (S (length (calls w))) (f0 :: fallback) prompt);
          exact M.
  - destruct (provider w (length (calls w)) m prompt) as [t|e] eqn:E1.
    + apply (miss_first _ _ _ m t); [reflexivity | exact E1].
    + apply (miss_raise _ _ _ m e); [reflexivity | exact I | exact E1].
Qed.

Lemma after_call_calls model prompt w :
  calls (after_call model prompt w) = calls w ++ [(model, prompt)].
Proof. reflexivity. Qed.

Lemma after_call_files model prompt w :
  cache_files (after_call model prompt w) = cache_files w.
Proof. reflexivity. Qed.

Lemma generate_other_files c prompt w p :
  _cache_path prompt (cache_model c) <> Ok p ->
  cache_files (snd (generate c prompt w)) !! p = cache_files w !! p.
Proof.
  intros Hp. destruct (_cache_get prompt (cache_model c) w) as [[t|]|e] eqn:E.
  - rewrite (generate_hit _ _ _ _ E). reflexivity.
  - destruct (generate_miss _ _ _ E) as [model t _ _|model e _ _ _
                                         |primary fallback e r -> _ _ _].
    + cbn [snd]. rewrite cache_set_other by exact Hp. reflexivity.
    + reflexivity.
    + destruct r; cbn [snd]; [|reflexivity].
      rewrite cache_set_other by exact Hp. reflexivity.
  - rewrite (generate_unencodable _ _ _ _ E). reflexivity.
Qed.



(** C6, as amended: a call that finds a readable cache entry returns its
    text, makes no outbound call and changes nothing. After a call that
    returns a text, the next call with the same inputs returns the same
    text from the cache, without an outbound call, provided the cache file
    could be written and the text survives the text-mode file (no
    surrogate, and a line-end translation that gives it back). One call
    makes at most two outbound calls (the primary model and, on the
    backend with a fallback, the fallback model), at most one on the other
    backend. A call that raises leaves the cache as it was, a call writes
    under no other key than its own, and an unreadable entry is a miss. *)
Theorem generate_cache_spec c prompt w :
  let model := cache_model c in
  (forall t, _cache_get prompt model w = Ok (Some t) ->
     generate c prompt w = (Ok t, w))
  /\ (forall t w1 p,
       generate c prompt w = (Ok t, w1) ->
       _cache_path prompt model = Ok p ->
       cache_writable w p = true ->
       existsb is_surrogate t = false ->
       read_newlines (write_newlines t) = t ->
       generate c prompt w1 = (Ok t, w1))
  /\ (exists made,
       calls (snd (generate c prompt w)) = calls w ++ made
       /\ length made <= 2
       /\ (forall m, c = MistralClient m -> length made <= 1))
  /\ (forall e w1,
       generate c prompt w = (Raise e, w1) -> cache_files w1 = cache_files w)
  /\ (forall p, _cache_path prompt model <> Ok p ->
       cache_files (snd (generate c prompt w)) !! p = cache_files w !! p)
  /\ (forall p, _cache_path prompt model = Ok p ->
      cache_files w !! p = Some Unreadable ->
      _cache_get prompt model w = Ok None).
Proof.
  intros model.
  split; [intros t; apply generate_hit|].
  split.
  { intros t w1 p Hg Hp Hw Hs Hn. apply generate_hit.
    destruct (_cache_get prompt (cache_model c) w) as [[t0|]|e0] eqn:E.
    - rewrite (generate_hit _ _ _ _ E) in Hg. inversion Hg; subst. exact E.
    - pose proof (generate_miss _ _ _ E) as M. rewrite Hg in M.
      inversion M as [m t' Hm Hp' [Ht Hw1]|m e' Hm Hno Hp'
                      |p0 f e' r Hc Hne Hp' Hr Heq].
      + subst. apply (cache_set_get _ _ p); assumption.
      + subst c. cbn [cache_model] in *. destruct r as [t'|e2]; inversion Heq.
        subst. apply (cache_set_get _ _ p); assumption.
    - rewrite (generate_unencodable _ _ _ _ E) in Hg. inversion Hg. }
  split.
  { destruct (_cache_get prompt (cache_model c) w) as [[t|]|e0] eqn:E.
    - rewrite (generate_hit _ _ _ _ E). exists []. cbn.
      rewrite app_nil_r. split; [reflexivity|]. split; intros; lia.
    - destruct (generate_miss _ _ _ E) as [m t _ _|m e _ _ _
                                           |primary fallback e r -> _ _ _].
      + exists [(m, prompt)]. cbn [snd]. rewrite cache_set_calls.
        split; [reflexivity|]. cbn. split; intros; lia.
      + exists [(m, prompt)]. split; [reflexivity|]. cbn. split; intros; lia.
      + exists [(primary, prompt); (fallback, prompt)].
        split; [|split; [cbn; lia | intros m X; inversion X]].
        destruct r; cbn [snd]; rewrite ?cache_set_calls, !after_call_calls,
          <- app_assoc; reflexivity.
    - rewrite (generate_unencodable _ _ _ _ E). exists []. cbn.
      rewrite app_nil_r. split; [reflexivity|]. split; intros; lia. }
  split.
  { intros e w1 Hg.
    destruct (_cache_get prompt (cache_model c) w) as [[t|]|e0] eqn:E.
    - rewrite (generate_hit _ _ _ _ E) in Hg. inversion Hg.
    - destruct (generate_miss _ _ _ E) as [m t _ _|m e' _ _ _
                                           |primary fallback e' r -> _ _ _].
      + inversion Hg.
      + inversion Hg. reflexivity.
      + destruct r; inversion Hg. reflexivity.
    - rewrite (generate_unencodable _ _ _ _ E) in Hg. inversion Hg.
      reflexivity. }
  split; [intros p; apply generate_other_files|].
  intros p Hp Hu. rewrite cache_get_path. subst model. rewrite Hp.
  cbn [bind]. rewrite Hu. reflexivity.
Qed.


End Client.

(** ** The entry point *)

Lemma pick_first_nonempty a ks : first_nonempty a ks (pick a ks).
Proof.
  induction ks as [|k ks IH]; cbn [pick]; [constructor|].
  destruct (answers_get a k) as [[|c v]|] eqn:E.
  - apply first_nonempty_skip; auto.
  - apply first_nonempty_here. exact E.
  - apply first_nonempty_skip; auto.
Qed.

Section EntryPoint.
Context `{rt : Runtime}.

Lemma coerce_schema_empty pf a :
  readable pf = true ->
  _coerce_schema pf (PDict []) a
  = Ok (coerced [] [] a
          (aligned_with []
             (first_occurrences (principle_names (principles_text pf))))).
Proof.
  intros Hr. rewrite coerce_schema_dict by exact Hr.
  cbn [field dict_get py_or truthy].
  rewrite alignment_dict_first. reflexivity.
Qed.

Lemma template_summary_ok pf s :
  readable pf = true ->
  exists md,
    _template_summary pf s = Ok (md, template_record pf (answers_of s)).
Proof.
  intros Hr.
  unfold _template_summary. rewrite coerce_schema_empty by exact Hr.
  cbn [bind].
  unfold _render_markdown, template_record.
  cbn [set_evaluation suitability coerced upper suitability_of field dict_get
       eq_str orb bind].
  eauto.
Qed.

(** With a principles file that cannot be read, the template summary
    raises what the read raises. *)
Lemma template_summary_fails e s :
  _template_summary (Fails e) s = Raise e.
Proof.
  unfold _template_summary. rewrite coerce_schema_steps.
  cbn [field dict_get py_or truthy _read_principles bind]. reflexivity.
Qed.

Lemma llm_summary_fails cfg e s w :
  exists e', _llm_summary cfg (Fails e) s w = (Raise e', w).
Proof.
  unfold _llm_summary, io_bind, lift, ret.
  destruct (LLMClient_init cfg) as [client|e0]; cbn [_read_principles]; eauto.
Qed.

Lemma summarize_session_fails cfg e s w :
  summarize_session cfg (Fails e) s w = (Raise e, w).
Proof.
  unfold summarize_session, try_except, lift.
  destruct (USE_LLM_SUMMARY cfg); cbn [negb];
    [|rewrite template_summary_fails; reflexivity].
  destruct (llm_summary_fails cfg e s w) as [e' ->].
  rewrite template_summary_fails. reflexivity.
Qed.

Lemma llm_summary_inv cfg pf s w md st w1 :
  _llm_summary cfg pf s w = (Ok (md, st), w1) ->
  exists raw,
    _coerce_schema pf raw (answers_of s) = Ok st
    /\ _render_markdown st = Ok md.
Proof.
  unfold _llm_summary, io_bind, lift, ret.
  destruct (LLMClient_init cfg) as [client|e]; [|intros H; inversion H].
  destruct (_read_principles pf) as [text|e]; [|intros H; inversion H].
  destruct (generate client _ w) as [[response|e] w'];
    [|intros H; inversion H].
  destruct (_coerce_schema pf (_safe_json_parse response) (answers_of s))
    as [st'|e] eqn:Ec; [|intros H; inversion H].
  destruct (_render_markdown st') as [md'|e] eqn:Er; intros H; inversion H.
  subst. eauto.
Qed.

(** The outcomes of the entry point. *)
Lemma summarize_session_cases cfg pf s w :
  (USE_LLM_SUMMARY cfg = false
   /\ summarize_session cfg pf s w = (_template_summary pf s, w))
  \/ (USE_LLM_SUMMARY cfg = true
      /\ exists r w1,
          _llm_summary cfg pf s w = (r, w1)
          /\ summarize_session cfg pf s w
             = (match r with Ok x => Ok x | Raise _ => _template_summary pf s end,
                w1)).
Proof.
  unfold summarize_session.
  destruct (USE_LLM_SUMMARY cfg); cbn [negb]; [right | left; auto].
  split; [reflexivity|]. unfold try_except, lift.
  destruct (_llm_summary cfg pf s w) as [[x|e] w1]; eauto.
Qed.

Lemma summarize_session_outcome cfg pf s w :
  readable pf = true ->
  exists md st w',
    summarize_session cfg pf s w = (Ok (md, st), w')
    /\ ((_template_summary pf s = Ok (md, st)
         /\ ((USE_LLM_SUMMARY cfg = false /\ w' = w)
             \/ (USE_LLM_SUMMARY cfg = true
                 /\ exists e, _llm_summary cfg pf s w = (Raise e, w'))))
        \/ (USE_LLM_SUMMARY cfg = true
            /\ _llm_summary cfg pf s w = (Ok (md, st), w'))).
Proof.
  intros Hr.
  destruct (template_summary_ok pf s Hr) as [tmd Ht].
  destruct (summarize_session_cases cfg pf s w)
    as [[Hu ->]|[Hu (r & w1 & Hl & ->)]].
  - exists tmd, (template_record pf (answers_of s)), w.
    rewrite Ht. split; [reflexivity|]. left. auto.
  - destruct r as [[md st]|e].
    + exists md, st, w1. split; [reflexivity|]. right. auto.
    + exists tmd, (template_record pf (answers_of s)), w1.
      rewrite Ht. split; [reflexivity|]. left. split; [reflexivity|].
      right. eauto.
Qed.

(** C1, as amended: when the principles file is missing or can be read,
    then for every session, configuration and behaviour of the cache
    and of the provider, [summarize_session] returns a pair of a markdown
    text and a record and raises nothing; with the model summary switched
    off, or when the model path raises at any stage, the pair is the
    template-mode summary. When the principles file is there and cannot
    be read, [summarize_session] raises what the read raises, in either
    mode and before any outbound call. *)
Theorem summarize_session_never_raises cfg pf s w :
  (readable pf = true ->
   exists md st w',
     summarize_session cfg pf s w = (Ok (md, st), w')
     /\ (USE_LLM_SUMMARY cfg = false ->
         _template_summary pf s = Ok (md, st) /\ w' = w)
     /\ (USE_LLM_SUMMARY cfg = true ->
         forall e w1,
           _llm_summary cfg pf s w = (Raise e, w1) ->
           _template_summary pf s = Ok (md, st) /\ w' = w1))
  /\ (forall e, pf = Fails e ->
      summarize_session cfg pf s w = (Raise e, w)).
Proof.
  split; [|intros e ->; apply summarize_session_fails].
  intros Hr.
  destruct (summarize_session_outcome cfg pf s w Hr)
    as (md & st & w' & Hs & Hfrom).
  exists md, st, w'. split; [exact Hs|].
  destruct Hfrom as [[Ht [[Hu Hw]|[Hu [e He]]]]|[Hu Hl]]; rewrite Hu.
  - split; [auto|]. intros X; inversion X.
  - split; [intros X; inversion X|].
    intros _ e' w1 He'. rewrite He in He'. inversion He'. auto.
  - split; [intros X; inversion X|].
    intros _ e' w1 He'. rewrite Hl in He'. inversion He'.
Qed.

(** C4, as amended: the principles file being missing or readable, the
    template-mode summary carries the evaluation ["Template summary:
    Candidate provided responses. Enable LLM summaries for richer
    evaluation."], and this is what the entry point returns with the
    model summary switched off or when the model path raises. *)
Theorem template_evaluation_literal cfg pf s w :
  readable pf = true ->
  (exists md st,
     _template_summary pf s = Ok (md, st)
     /\ evaluation st
        = PStr (lit "Template summary: Candidate provided responses. Enable LLM summaries for richer evaluation."))
  /\ (USE_LLM_SUMMARY cfg = false
      \/ is_ok (fst (_llm_summary cfg pf s w)) = false ->
      exists md st w',
        summarize_session cfg pf s w = (Ok (md, st), w')
        /\ evaluation st
           = PStr (lit "Template summary: Candidate provided responses. Enable LLM summaries for richer evaluation.")).
Proof.
  intros Hr.
  destruct (template_summary_ok pf s Hr) as [tmd Ht].
  split; [exists tmd, (template_record pf (answers_of s)); auto|].
  intros Hmode.
  destruct (summarize_session_cases cfg pf s w)
    as [[Hu ->]|[Hu (r & w1 & Hl & ->)]].
  - rewrite Ht. eauto.
  - destruct Hmode as [Hoff|Hfail]; [congruence|].
    rewrite Hl in Hfail. destruct r; [inversion Hfail|].
    rewrite Ht. eauto.
Qed.

Lemma summarize_session_raw_answers cfg pf s w :
  readable pf = true ->
  exists md st w',
    summarize_session cfg pf s w = (Ok (md, st), w')
    /\ raw_answers st = resolve_answers (answers_of s).
Proof.
  intros Hr.
  destruct (summarize_session_outcome cfg pf s w Hr)
    as (md & st & w' & Hs & Hfrom).
  exists md, st, w'. split; [exact Hs|].
  destruct Hfrom as [[Ht _]|[_ Hl]].
  - destruct (template_summary_ok pf s Hr) as [tmd Ht'].
    rewrite Ht' in Ht. inversion Ht. reflexivity.
  - destruct (llm_summary_inv _ _ _ _ _ _ _ Hl) as (raw & Hraw & _).
    destruct (coerce_schema_inv _ _ _ _ Hraw)
      as (d & nd & al & _ & _ & _ & ->).
    reflexivity.
Qed.

Lemma summarize_session_returned_readable cfg pf s w md st w' :
  summarize_session cfg pf s w = (Ok (md, st), w') -> readable pf = true.
Proof.
  destruct pf as [| |e]; try reflexivity.
  rewrite summarize_session_fails. intros H; inversion H.
Qed.

(** C9: whatever the cap on the answers sent to the model, and whatever
    the model returns, the [raw_answers] of the record are resolved from
    the answers of the session as they are: each is the first non-empty
    answer under the ordered source keys of its field, unchanged, or the
    empty string when there is none; under any other configuration (any
    other cap) and any other state of the cache and of the provider the
    record has the same [raw_answers]. There is such a record whenever
    the principles file is missing or can be read, and every record the
    entry point returns is of this kind. *)
Theorem raw_answers_uncapped cfg pf s w :
  (readable pf = true ->
   exists md st w',
     summarize_session cfg pf s w = (Ok (md, st), w')
     /\ raw_answers st = resolve_answers (answers_of s)
     /\ first_nonempty (answers_of s)
          [lit "background"; lit "full_name_background"]
          (background (raw_answers st))
     /\ first_nonempty (answers_of s)
          [lit "why_lunartech"; lit "motivation"]
          (why_lunartech (raw_answers st))
     /\ first_nonempty (answers_of s) [lit "experience"]
          (experience (raw_answers st))
     /\ first_nonempty (answers_of s) [lit "future_goals"; lit "goals"]
          (future_goals (raw_answers st))
     /\ first_nonempty (answers_of s) [lit "readiness"]
          (readiness (raw_answers st))
     /\ (forall cfg0 w0,
         exists md0 st0 w0',
           summarize_session cfg0 pf s w0 = (Ok (md0, st0), w0')
           /\ raw_answers st0 = raw_answers st))
  /\ (forall md st w',
        summarize_session cfg pf s w = (Ok (md, st), w') ->
        raw_answers st = resolve_answers (answers_of s)).
Proof.
  split.
  - intros Hpf.
    destruct (summarize_session_raw_answers cfg pf s w Hpf)
      as (md & st & w' & Hs & Hr).
    exists md, st, w'. split; [exact Hs|].
    split; [exact Hr|]. rewrite Hr. cbn [resolve_answers background
      why_lunartech experience future_goals readiness].
    repeat split; try apply pick_first_nonempty.
    intros cfg0 w0.
    destruct (summarize_session_raw_answers cfg0 pf s w0 Hpf)
      as (md0 & st0 & w0' & Hs0 & Hr0).
    exists md0, st0, w0'. split; [exact Hs0 | exact Hr0].
  - intros md st w' Hs.
    pose proof (summarize_session_returned_readable _ _ _ _ _ _ _ Hs) as Hpf.
    destruct (summarize_session_raw_answers cfg pf s w Hpf)
      as (md1 & st1 & w1 & Hs1 & Hr).
    rewrite Hs in Hs1. inversion Hs1; subst. exact Hr.
Qed.

End EntryPoint.

(** ** The properties at concrete inputs *)

Module Examples.

(** *** Strings and the runtime of the examples *)

Example lit_ellipsis : lit "…" = [8230%N] /\ lit "—" = [8212%N].
Proof. split; reflexivity. Qed.

Example splitlines_ex :
  splitlines (lit "- a" ++ nl ++ lit "- b" ++ nl) = [lit "- a"; lit "- b"].
Proof. reflexivity. Qed.

Example json_nested :
  mini_json_loads (tq "{^a^: {^b^: 2}, ^c^: [1, null, ^x^]}")
  = Some (PDict [(lit "a", PDict [(lit "b", PInt 2)]);
                 (lit "c", PList [PInt 1; PNone; PStr (lit "x")])]).
Proof. vm_compute. reflexivity. Qed.

Example json_rejects :
  mini_json_loads (tq "{^a^: 1}}") = None
  /\ mini_json_loads [] = None
  /\ mini_json_loads (lit "not json at all") = None
  /\ mini_json_loads (lit "{{{}") = None.
Proof. vm_compute. auto. Qed.

Example principle_names_ex :
  principle_names (rt := ascii_runtime)
    (lit "# Principles" ++ nl ++ lit "- Curiosity" ++ nl
     ++ lit "  2. Grit  " ++ nl ++ lit "plain text" ++ nl ++ lit "-")
  = [lit "Curiosity"; lit "Grit"].
Proof. vm_compute. reflexivity. Qed.

(** *** Extraction *)

Example extract_fenced :
  _safe_json_parse (rt := R)
    (FENCE3 ++ lit "json" ++ nl ++ tq "{^a^:1}" ++ nl ++ FENCE3)
  = PDict [(lit "a", PInt 1)].
Proof. vm_compute. reflexivity. Qed.

Example extract_widest_span :
  _safe_json_parse (rt := R) (tq "noise {^a^: {^b^: 2}} trailing")
  = PDict [(lit "a", PDict [(lit "b", PInt 2)])].
Proof. vm_compute. reflexivity. Qed.

Example extract_nothing :
  _extract_json_block (rt := R) (lit "not json at all") = None.
Proof. vm_compute. reflexivity. Qed.

(** The inner loop stops at the index [i] of the opening brace, not at its
    position: the object that starts at the third opening brace is never
    tried. *)
Example brace_scan_index_bound :
  brace_spans (lit "{{{}") = [lit "{{{}"]
  /\ _extract_json_block (rt := R) (lit "{{{}") = None
  /\ decodes (rt := R) (slice (lit "{{{}") 2 4) = true.
Proof. vm_compute. auto. Qed.

(** C5 fails as stated: a fenced block that holds a JSON array is
    accepted, where the algorithm of the specification, which decodes a
    JSON object, finds nothing; and a text that decodes as a whole is
    returned as it decodes, where the algorithm of the specification
    takes the fenced block inside it first. *)
Lemma extraction_counterexample :
  let fenced_array := FENCE3 ++ lit "[1]" ++ FENCE3 in
  let quoted_fence := tq "{^a^: ^```{}```^}" in
  (_extract_json_block (rt := R) fenced_array = Some (lit "[1]")
   /\ _safe_json_parse (rt := R) fenced_array = PList [PInt 1]
   /\ extract_reference (rt := R) fenced_array = None)
  /\ (_safe_json_parse (rt := R) quoted_fence
      = PDict [(lit "a", PStr (lit "```{}```"))]
      /\ extract_reference (rt := R) quoted_fence = Some (lit "{}")
      /\ json_loads (Runtime := R) (lit "{}") = Some (PDict [])).
Proof. vm_compute. auto. Qed.

(** C5, as amended, at a text with prose around a nested object. *)
Lemma extraction_witness :
  let text := tq "noise {^a^: {^b^: 2}} trailing" in
  _extract_json_block (rt := R) text = Some (tq "{^a^: {^b^: 2}}").
Proof.
  intros text.
  apply (proj1 (proj2 (proj2 (extraction_spec (rt := R) text))) 6).
  - intros H. vm_compute in H. inversion H.
  - vm_compute. reflexivity.
  - vm_compute. reflexivity.
  - vm_compute. reflexivity.
Defined.

(** *** Coercion *)

(** C2 fails as stated: a string under [notes] makes coercion raise. *)
Lemma coerce_total_counterexample :
  _coerce_schema (rt := R) Missing (PDict [(lit "notes", PStr (lit "good"))]) []
  = Raise AttributeError.
Proof. vm_compute. reflexivity. Qed.

(** C2, as amended, at a mapping with wrong types under every key but
    [notes] and [principles_alignment]. *)
Lemma coerce_total_witness :
  exists st,
    _coerce_schema (rt := R) (Holds (lit "- Grit"))
      (PDict [(lit "evaluation", PInt 5);
              (lit "suitability", PList [PInt 1]);
              (lit "readiness_flag", PBool true);
              (lit "notes", PDict [(lit "background", PInt 7)]);
              (lit "principles_alignment", PNone);
              (lit "raw_answers", PStr (lit "x"))])
      [(lit "experience", Some (lit "two years of SQL"))]
    = Ok st.
Proof.
  pose proof (proj1 (coerce_schema_total_on_mappings (rt := R) (Holds (lit "- Grit"))
    [(lit "evaluation", PInt 5);
     (lit "suitability", PList [PInt 1]);
     (lit "readiness_flag", PBool true);
     (lit "notes", PDict [(lit "background", PInt 7)]);
     (lit "principles_alignment", PNone);
     (lit "raw_answers", PStr (lit "x"))]
    [(lit "experience", Some (lit "two years of SQL"))]) eq_refl) as H.
  match type of H with
  | if ?b then _ else _ =>
    assert (b = true) as E by (vm_compute; reflexivity); rewrite E in H
  end.
  exact H.
Defined.

(** C3: the code at a model value outside the four literals. The value
    is kept as the readiness flag of the record, where the claim has one
    of the four literals; the suitability supplied beside it, which is no
    suitability literal either, is replaced by the heuristic. *)
Lemma readiness_flag_unvalidated :
  match _coerce_schema (rt := R) Missing
          (PDict [(lit "readiness_flag", PStr (lit "soon"));
                  (lit "suitability", PStr (lit "excellent"))]) [] with
  | Ok st =>
    readiness_flag st = PStr (lit "soon")
    /\ is_readiness_literal (readiness_flag st) = false
    /\ suitability st = PStr (lit "weak")
  | Raise _ => False
  end.
Proof. vm_compute. auto. Qed.

(** Without a model value the flag is derived from the answer. *)
Example readiness_flag_derived :
  match _coerce_schema (rt := R) Missing (PDict [])
          [(lit "readiness", Some (lit "Starting next MONTH"))] with
  | Ok st => readiness_flag st = PStr (lit "date")
  | Raise _ => False
  end.
Proof.
  destruct (_coerce_schema _ _ _) as [st|e] eqn:H;
    [|vm_compute in H; inversion H].
  apply (readiness_flag_of_record (rt := R) _ _ _ _ H).
  - vm_compute. reflexivity.
  - intros X. vm_compute in X. inversion X.
  - vm_compute. reflexivity.
  - vm_compute. reflexivity.
Qed.

Example readiness_ready_now :
  match _coerce_schema (rt := R) Missing (PDict [])
          [(lit "readiness", Some (lit "I am ready now"))] with
  | Ok st => readiness_flag st = PStr (lit "ready_now")
  | Raise _ => False
  end.
Proof. vm_compute. reflexivity. Qed.

Example suitability_thresholds :
  infer_suitability [(lit "experience", Some (repeat 120%N 130))] = lit "strong"
  /\ infer_suitability [(lit "experience", Some (repeat 120%N 50))]
     = lit "average"
  /\ infer_suitability [(lit "experience", Some (repeat 120%N 40));
                        (lit "motivation", Some (repeat 120%N 39))]
     = lit "weak".
Proof. vm_compute. auto. Qed.

(** C7 fails as stated: a principle listed twice is one key. *)
Lemma principles_alignment_counterexample :
  let pf := Holds (lit "- Grit" ++ nl ++ lit "- Grit") in
  principle_names (rt := R) (principles_text pf) = [lit "Grit"; lit "Grit"]
  /\ match _coerce_schema (rt := R) pf (PDict []) [] with
     | Ok st => keys (principles_alignment st) = [lit "Grit"]
     | Raise _ => False
     end.
Proof. vm_compute. auto. Qed.

(** C7, as amended, at two principles and no model evidence. *)
Lemma principles_alignment_witness :
  let pf := Holds (lit "- Curiosity" ++ nl ++ lit "- Grit" ++ nl) in
  match _coerce_schema (rt := R) pf (PDict []) [] with
  | Ok st =>
    principles_alignment st
    = [(lit "Curiosity", PStr []); (lit "Grit", PStr [])]
  | Raise _ => False
  end.
Proof.
  intros pf.
  destruct (_coerce_schema _ _ _) as [st|e] eqn:H;
    [|vm_compute in H; inversion H].
  rewrite (proj1 (principles_alignment_spec (rt := R) _ _ _ _ H)).
  vm_compute. reflexivity.
Defined.

(** C8 fails as stated: an answer of 221 characters gives a note of 221
    characters, the first 220 and the ellipsis. *)
Lemma notes_counterexample :
  match _coerce_schema (rt := R) Missing (PDict [])
          [(lit "background", Some (repeat 97%N 221))] with
  | Ok st =>
    background (notes st) = PStr (repeat 97%N 220 ++ lit "…")
    /\ length (repeat 97%N 220 ++ lit "…") = 221
  | Raise _ => False
  end.
Proof. vm_compute. auto. Qed.

(** C8, as amended, at a short answer with blanks around it. *)
Lemma notes_witness :
  match _coerce_schema (rt := R) Missing (PDict [])
          [(lit "background", Some (lit "  ten years of nursing  "))] with
  | Ok st => background (notes st) = PStr (lit "ten years of nursing")
  | Raise _ => False
  end.
Proof.
  destruct (_coerce_schema _ _ _) as [st|e] eqn:H;
    [|vm_compute in H; inversion H].
  destruct (notes_spec (rt := R) _ _ _ _ Background H) as (Hn & _ & Hs & _).
  cbn [at_key] in Hn, Hs. rewrite Hn.
  destruct (coerce_schema_inv _ _ _ _ H) as (d & nd & al & _ & _ & _ & ->).
  vm_compute. reflexivity.
Defined.

(** *** The client *)

(** C6 fails as stated: with a primary model that fails and a fallback
    that answers, two consecutive calls make two outbound calls. *)
Lemma generate_cache_counterexample :
  let c := OpenAIClient (lit "gpt-4o-mini") (lit "gpt-4o") in
  let first := generate (rt := R) c (lit "hello") flaky_world in
  let second := generate (rt := R) c (lit "hello") (snd first) in
  fst first = Ok (lit "{}") /\ fst second = Ok (lit "{}")
  /\ calls (snd second)
     = [(lit "gpt-4o-mini", lit "hello"); (lit "gpt-4o", lit "hello")].
Proof. vm_compute. auto. Qed.

(** C6, as amended, at two calls on the backend without a fallback. *)
Lemma generate_cache_witness :
  let c := MistralClient (lit "mistral-medium-latest") in
  let w1 := snd (generate (rt := R) c (lit "hello") steady_world) in
  generate (rt := R) c (lit "hello") w1 = (Ok (lit "{}"), w1).
Proof.
  intros c w1.
  apply (proj1 (proj2 (generate_cache_spec (rt := R) c (lit "hello")
                         steady_world))
           (lit "{}") w1
           (cache_file (rt := R) (lit "hello") (lit "mistral-medium-latest"))).
  - vm_compute. reflexivity.
  - vm_compute. reflexivity.
  - vm_compute. reflexivity.
  - vm_compute. reflexivity.
  - vm_compute. reflexivity.
Defined.



(** *** The entry point *)

(** C4 fails as stated: with a failing backend the evaluation is the
    template literal of the code, not the one of the specification; the
    readiness flag is [date], as the specification says. *)
Lemma template_evaluation_counterexample :
  match fst (summarize_session (rt := R) openai_config Missing sample_session
               failing_world) with
  | Ok (_, st) =>
    evaluation st
    = PStr (lit "Template summary: Candidate provided responses. Enable LLM summaries for richer evaluation.")
    /\ eq_str (evaluation st) SPEC_TEMPLATE_EVALUATION = false
    /\ readiness_flag st = PStr (lit "date")
  | Raise _ => False
  end.
Proof. vm_compute. auto. Qed.

(** C4, as amended, at a failing backend. *)
Lemma template_evaluation_witness :
  exists md st w',
    summarize_session (rt := R) openai_config Missing sample_session failing_world
    = (Ok (md, st), w')
    /\ evaluation st
       = PStr (lit "Template summary: Candidate provided responses. Enable LLM summaries for richer evaluation.").
Proof.
  apply (proj2 (template_evaluation_literal (rt := R) openai_config Missing
                  sample_session failing_world eq_refl)).
  right. vm_compute. reflexivity.
Defined.

(** C9 at an answer longer than the cap: the prompt carries 800
    characters of it and the ellipsis, the record all 1000. *)
Lemma raw_answers_uncapped_witness :
  cap_answers (answers_of long_session) 800
  = [(lit "background", repeat 97%N 800 ++ lit "…")]
  /\ exists md st w',
       summarize_session (rt := R) openai_config Missing long_session
         steady_world = (Ok (md, st), w')
       /\ background (raw_answers st) = repeat 97%N 1000.
Proof.
  split; [vm_compute; reflexivity|].
  destruct (proj1 (raw_answers_uncapped (rt := R) openai_config Missing
                     long_session steady_world) eq_refl)
    as (md & st & w' & H & Hr & _).
  exists md, st, w'. split; [exact H|]. rewrite Hr.
  vm_compute. reflexivity.
Defined.

(** C1 fails as stated: with a principles file that is there and cannot
    be decoded, the entry point raises, with the model summary switched
    on or off. *)
Lemma summarize_session_counterexample :
  fst (summarize_session (rt := R) openai_config (Fails UnicodeDecodeError)
         sample_session steady_world)
  = Raise UnicodeDecodeError
  /\ USE_LLM_SUMMARY template_config = false
  /\ fst (summarize_session (rt := R) template_config
            (Fails UnicodeDecodeError) sample_session steady_world)
     = Raise UnicodeDecodeError.
Proof. vm_compute. auto. Qed.

(** C1, as amended, at a failing backend: the summary is the template
    one. *)
Lemma summarize_session_witness :
  exists md st w',
    summarize_session (rt := R) openai_config Missing sample_session failing_world
    = (Ok (md, st), w')
    /\ _template_summary (rt := R) Missing sample_session = Ok (md, st).
Proof.
  destruct (proj1 (summarize_session_never_raises (rt := R) openai_config
                     Missing sample_session failing_world) eq_refl)
    as (md & st & w' & H & _ & Hon).
  exists md, st, w'. split; [exact H|].
  apply (Hon eq_refl (LibraryError 503)
           (snd (_llm_summary (rt := R) openai_config Missing sample_session
                   failing_world))).
  vm_compute. reflexivity.
Defined.

End Examples.

(** * Further properties of the code *)

(** ** The record coercion returns *)

Section Record.
Context `{rt : Runtime}.

Lemma eq_str_eq v s : eq_str v s = true <-> v = PStr s.
Proof.
  destruct v; cbn [eq_str]; try (split; intros H; inversion H; fail).
  rewrite str_eqb_eq. split; [intros ->; reflexivity | intros [= ->]; reflexivity].
Qed.

Lemma infer_suitability_cases a :
  let mot := length (pick a [lit "why_lunartech"; lit "motivation"]) in
  let exp := length (pick a [lit "experience"]) in
  ((120 < mot \/ 120 < exp) /\ infer_suitability a = lit "strong")
  \/ (mot <= 120 /\ exp <= 120 /\ (40 < mot \/ 40 < exp)
      /\ infer_suitability a = lit "average")
  \/ (mot <= 40 /\ exp <= 40 /\ infer_suitability a = lit "weak").
Proof.
  intros mot exp. unfold infer_suitability. fold mot exp.
  destruct (120 <? mot) eqn:E1; [apply Nat.ltb_lt in E1; left; auto|].
  destruct (120 <? exp) eqn:E2; [apply Nat.ltb_lt in E2; left; auto|].
  apply Nat.ltb_ge in E1, E2. cbn [orb]. right.
  destruct (40 <? mot) eqn:E3; [apply Nat.ltb_lt in E3; left; auto 6|].
  destruct (40 <? exp) eqn:E4; [apply Nat.ltb_lt in E4; left; auto 6|].
  apply Nat.ltb_ge in E3, E4. right. auto.
Qed.

Lemma suitability_of_str d a : exists s, suitability_of d a = PStr s.
Proof.
  unfold suitability_of. set (s := field d (lit "suitability")).
  destruct (eq_str s (lit "strong") || eq_str s (lit "average")
            || eq_str s (lit "weak")) eqn:E; [|eauto].
  rewrite !orb_true_iff, !eq_str_eq in E.
  destruct E as [[->| ->]| ->]; eauto.
Qed.

(** X1: the suitability of a coerced record is always one of the three
    literals: the model's value when it is one of them, and otherwise
    [strong] when the motivation or the experience answer has more than
    120 characters, [average] when one has more than 40, [weak] else. *)
Theorem suitability_spec pf raw a st :
  _coerce_schema pf raw a = Ok st ->
  let model := supplied raw (lit "suitability") in
  let mot := length (why_lunartech (raw_answers st)) in
  let exp := length (experience (raw_answers st)) in
  (suitability st = PStr (lit "strong")
   \/ suitability st = PStr (lit "average")
   \/ suitability st = PStr (lit "weak"))
  /\ (is_suitability_literal model = true -> suitability st = model)
  /\ (is_suitability_literal model = false ->
      (120 < mot \/ 120 < exp -> suitability st = PStr (lit "strong"))
      /\ (mot <= 120 -> exp <= 120 -> 40 < mot \/ 40 < exp ->
          suitability st = PStr (lit "average"))
      /\ (mot <= 40 -> exp <= 40 -> suitability st = PStr (lit "weak"))).
Proof.
  intros H model mot exp.
  destruct (coerce_schema_inv _ _ _ _ H) as (d & nd & al & -> & _ & _ & ->).
  cbn [suitability coerced raw_answers resolve_answers why_lunartech
       experience] in *.
  subst model. cbn [supplied]. unfold suitability_of, is_suitability_literal.
  set (s := field d (lit "suitability")).
  pose proof (infer_suitability_cases a) as Hc. cbn zeta in Hc.
  fold mot exp in Hc.
  destruct (eq_str s (lit "strong") || eq_str s (lit "average")
            || eq_str s (lit "weak")) eqn:E.
  - split.
    + rewrite !orb_true_iff, !eq_str_eq in E. tauto.
    + split; [reflexivity | intros X; inversion X].
  - split.
    + destruct Hc as [[_ ->]|[(_ & _ & _ & ->)|(_ & _ & ->)]]; auto.
    + split; [intros X; inversion X|]. intros _.
      destruct Hc as [[Hs ->]|[(H1 & H2 & Hs & ->)|(H1 & H2 & ->)]];
        repeat split; intros; first [reflexivity | lia].
Qed.

(** X2: rendering never raises on a record coercion returned, whatever
    the types of the values the model supplied, nor on that record with
    its evaluation replaced, as template mode does. *)
Theorem render_coerced_ok pf raw a st :
  _coerce_schema pf raw a = Ok st ->
  (exists md, _render_markdown st = Ok md)
  /\ (forall v, exists md, _render_markdown (set_evaluation st v) = Ok md).
Proof.
  intros H.
  destruct (coerce_schema_inv _ _ _ _ H) as (d & nd & al & _ & _ & _ & ->).
  destruct (suitability_of_str d a) as [s Hs].
  unfold _render_markdown. cbn [set_evaluation suitability coerced].
  rewrite Hs. cbn [upper bind]. split; [eauto | intros v; eauto].
Qed.

End Record.

(** ** The model path of the entry point *)

Section ModelPath.
Context `{rt : Runtime}.

Lemma coerce_schema_raises pf d a :
  readable pf = true ->
  coercible pf d = false ->
  _coerce_schema pf (PDict d) a = Raise AttributeError.
Proof.
  intros Hr. rewrite coerce_schema_dict by exact Hr. unfold coercible.
  destruct (py_or_cases (field d (lit "notes"))) as [[-> [nd ->]]|[-> Hn]];
    cbn [andb].
  - destruct (py_or_cases (field d (lit "principles_alignment")))
      as [[-> [pd ->]]|[-> Hp]]; cbn [orb]; [intros X; inversion X|].
    destruct (principle_names (principles_text pf)) as [|n names];
      [intros X; inversion X|].
    intros _. rewrite alignment_nondict by exact Hp. reflexivity.
  - intros _. destruct (py_or (field d (lit "notes")) (PDict []));
      first [reflexivity | inversion Hn].
Qed.

Lemma llm_summary_init_fails cfg pf s w e :
  LLMClient_init cfg = Raise e -> _llm_summary cfg pf s w = (Raise e, w).
Proof.
  intros H. unfold _llm_summary, io_bind, lift. rewrite H. reflexivity.
Qed.

Lemma llm_summary_step cfg pf s w c r w1 :
  readable pf = true ->
  LLMClient_init cfg = Ok c ->
  generate c (llm_prompt cfg pf s) w = (r, w1) ->
  _llm_summary cfg pf s w
  = (match r with
     | Ok response =>
       let* st := _coerce_schema pf (_safe_json_parse response) (answers_of s) in
       let* md := _render_markdown st in
       Ok (md, st)
     | Raise e => Raise e
     end, w1).
Proof.
  intros Hr Hc Hg. unfold llm_prompt in Hg.
  unfold _llm_summary, io_bind, lift, ret. rewrite Hc.
  rewrite (read_principles_readable _ Hr). cbv zeta.
  rewrite Hg.
  destruct r as [response|e]; [|reflexivity].
  destruct (_coerce_schema pf (_safe_json_parse response) (answers_of s))
    as [st|e]; cbn [bind]; [|reflexivity].
  destruct (_render_markdown st); reflexivity.
Qed.

Lemma summarize_session_model_on cfg pf s w :
  USE_LLM_SUMMARY cfg = true ->
  summarize_session cfg pf s w
  = match _llm_summary cfg pf s w with
    | (Ok x, w1) => (Ok x, w1)
    | (Raise _, w1) => (_template_summary pf s, w1)
    end.
Proof.
  intros H. unfold summarize_session, try_except, lift. rewrite H.
  reflexivity.
Qed.

(** X3: when the client cannot be built (the Mistral backend without a
    key, a backend that is neither of the two) and the principles file
    is missing or can be read, the entry point returns the template
    summary and touches nothing: no outbound call is made and no cache
    file is written. When the principles file is there and cannot be
    read, the entry point raises what the read raises instead. *)
Theorem misconfigured_client_falls_back cfg pf s w :
  (forall e,
     LLMClient_init cfg = Raise e ->
     readable pf = true ->
     exists md,
       summarize_session cfg pf s w
       = (Ok (md, template_record pf (answers_of s)), w))
  /\ (forall e e',
        LLMClient_init cfg = Raise e ->
        pf = Fails e' ->
        summarize_session cfg pf s w = (Raise e', w))
  /\ (LLM_BACKEND cfg = lit "mistral" ->
      MISTRAL_API_KEY cfg = None \/ MISTRAL_API_KEY cfg = Some [] ->
      LLMClient_init cfg = Raise RuntimeError)
  /\ (LLM_BACKEND cfg <> lit "openai" -> LLM_BACKEND cfg <> lit "mistral" ->
      LLMClient_init cfg = Raise ValueError).
Proof.
  split; [|split; [|split]].
  - intros e He Hr. destruct (template_summary_ok pf s Hr) as [md Ht].
    exists md. destruct (USE_LLM_SUMMARY cfg) eqn:Hu.
    + rewrite summarize_session_model_on by exact Hu.
      rewrite (llm_summary_init_fails _ _ _ _ _ He), Ht. reflexivity.
    + unfold summarize_session, lift. rewrite Hu, Ht. reflexivity.
  - intros e e' _ ->. apply summarize_session_fails.
  - intros Hb Hk. unfold LLMClient_init. rewrite Hb.
    replace (str_eqb (lit "mistral") (lit "openai")) with false
      by (vm_compute; reflexivity).
    rewrite str_eqb_refl. destruct Hk as [-> | ->]; reflexivity.
  - intros H1 H2. unfold LLMClient_init.
    apply str_eqb_neq in H1, H2. rewrite H1, H2. reflexivity.
Qed.

(** X4: the principles file being missing or readable, when the model
    answers but its answer decodes to something that is no mapping, or
    to a mapping coercion raises on, the entry point returns the template
    summary; the calls made and the cache entry written by [generate]
    stay. *)
Theorem unusable_response_falls_back cfg pf s w c response w1 :
  readable pf = true ->
  USE_LLM_SUMMARY cfg = true ->
  LLMClient_init cfg = Ok c ->
  generate c (llm_prompt cfg pf s) w = (Ok response, w1) ->
  (forall d, _safe_json_parse response = PDict d -> coercible pf d = false) ->
  exists md,
    summarize_session cfg pf s w
    = (Ok (md, template_record pf (answers_of s)), w1).
Proof.
  intros Hr Hu Hc Hg Hbad. destruct (template_summary_ok pf s Hr) as [md Ht].
  exists md. rewrite summarize_session_model_on by exact Hu.
  rewrite (llm_summary_step _ _ _ _ _ _ _ Hr Hc Hg).
  assert (_coerce_schema pf (_safe_json_parse response) (answers_of s)
          = Raise AttributeError) as ->.
  { destruct (is_dict (_safe_json_parse response)) eqn:Hd.
    - destruct (_safe_json_parse response) eqn:Hp; try (inversion Hd; fail).
      apply coerce_schema_raises; [exact Hr | apply Hbad; reflexivity].
    - apply coerce_schema_nondict, Hd. }
  cbn [bind]. rewrite Ht. reflexivity.
Qed.

(** X5: the principles file being missing or readable, when the model
    answers but extraction yields the empty mapping (an empty answer,
    nothing that decodes, an empty object), the entry point stays on the
    model path: the record is built from the answers alone and carries
    the evaluation ["Automated notes generated; consider human review for
    final decision."], not the template literal; it is the template
    record in every other field. *)
Theorem empty_extraction_gives_heuristics cfg pf s w c response w1 :
  readable pf = true ->
  USE_LLM_SUMMARY cfg = true ->
  LLMClient_init cfg = Ok c ->
  generate c (llm_prompt cfg pf s) w = (Ok response, w1) ->
  _safe_json_parse response = PDict [] ->
  exists md st,
    summarize_session cfg pf s w = (Ok (md, st), w1)
    /\ st = heuristic_record pf (answers_of s)
    /\ evaluation st
       = PStr (lit "Automated notes generated; consider human review for final decision.")
    /\ set_evaluation st (PStr TEMPLATE_EVALUATION)
       = template_record pf (answers_of s).
Proof.
  intros Hr Hu Hc Hg Hp.
  rewrite summarize_session_model_on by exact Hu.
  rewrite (llm_summary_step _ _ _ _ _ _ _ Hr Hc Hg), Hp,
    (coerce_schema_empty _ _ Hr).
  cbn [bind]. fold (heuristic_record pf (answers_of s)).
  destruct (suitability_of_str [] (answers_of s)) as [su Hs].
  unfold _render_markdown at 1.
  unfold heuristic_record at 1. cbn [suitability coerced].
  rewrite Hs. cbn [upper bind]. fold (heuristic_record pf (answers_of s)).
  eexists _, _. split; [reflexivity|]. split; [reflexivity|].
  split; reflexivity.
Qed.

(** The empty mapping is what extraction yields on an empty answer and on
    one in which nothing decodes. *)
Lemma safe_json_parse_nothing response :
  response = []
  \/ (json_loads response = None /\ _extract_json_block response = None) ->
  _safe_json_parse response = PDict [].
Proof.
  intros [->|[Hn Hb]]; [reflexivity|].
  unfold _safe_json_parse. destruct response; [reflexivity|].
  rewrite Hn, Hb. reflexivity.
Qed.

End ModelPath.

(** ** The client: failures and the cache file *)

Section ClientFailures.
Context `{rt : Runtime}.

(** X6: when [generate] raises. Either the path of the cache entry
    cannot be computed, the prompt or the model name holding a surrogate
    that UTF-8 cannot encode: then [UnicodeEncodeError] leaves [generate]
    before the lookup and before any outbound call, and nothing has
    changed. Or the lookup missed, and what is raised is the exception of
    the last outbound call made: that of the single call on the backend
    without a fallback model (Mistral, or OpenAI with an empty fallback),
    that of the fallback call otherwise, the exception of the primary
    call being dropped; then nothing but the call log has changed. *)
Theorem generate_failure_spec c prompt w :
  (forall e w1,
     generate c prompt w = (Raise e, w1) ->
     (encodable (cache_model c ++ nl ++ prompt) = false
      /\ e = UnicodeEncodeError /\ w1 = w)
     \/ (_cache_get prompt (cache_model c) w = Ok None
         /\ ((exists model,
                (c = MistralClient model \/ c = OpenAIClient model [])
                /\ provider w (length (calls w)) model prompt = Raise e
                /\ w1 = after_call model prompt w)
             \/ (exists primary fallback e1,
                   c = OpenAIClient primary fallback /\ fallback <> []
                   /\ provider w (length (calls w)) primary prompt = Raise e1
                   /\ provider w (S (length (calls w))) fallback prompt
                      = Raise e
                   /\ w1 = after_call fallback prompt
                             (after_call primary prompt w)))))
  /\ (encodable (cache_model c ++ nl ++ prompt) = false ->
      generate c prompt w = (Raise UnicodeEncodeError, w)).
Proof.
  split.
  - intros e w1 Hg.
    destruct (_cache_get prompt (cache_model c) w) as [[t|]|e0] eqn:E.
    + rewrite (generate_hit _ _ _ _ E) in Hg. inversion Hg.
    + right. split; [reflexivity|].
      pose proof (generate_miss c prompt w E) as M. rewrite Hg in M.
      inversion M as [m t Hm Hp Heq|m e' Hm Hno Hp
                      |p f e1 r Hc Hne Hp Hr Heq].
      * left. exists m. subst m.
        destruct c as [p [|f0 f]|m']; try contradiction; auto.
      * right. exists p, f, e1. destruct r as [t|e2] eqn:Er; inversion Heq.
        subst. auto.
    + left. rewrite (generate_unencodable _ _ _ _ E) in Hg.
      inversion Hg; subst. apply cache_get_raise in E.
      destruct (cache_path_cases prompt (cache_model c)) as [[_ H]|[Hn H]];
        rewrite H in E; inversion E. auto.
  - intros Hn. apply generate_unencodable. rewrite cache_get_path.
    destruct (cache_path_cases prompt (cache_model c)) as [[H _]|[_ ->]];
      [congruence | reflexivity].
Qed.

(** *** The text-mode file *)

Lemma read_newlines_no_cr s : existsb (N.eqb 13) (read_newlines s) = false.
Proof.
  assert (forall n s, length s <= n ->
            existsb (N.eqb 13) (read_newlines s) = false) as H.
  { clear s. induction n as [|n IH]; intros [|c s] Hl; try reflexivity.
    - cbn in Hl. lia.
    - cbn in Hl. cbn [read_newlines].
      destruct (c =? 13)%N eqn:E.
      + cbn [existsb]. change (13 =? 10)%N with false. cbn [orb].
        destruct s as [|d s]; [reflexivity|].
        destruct (d =? 10)%N; apply IH; cbn in *; lia.
      + cbn [existsb]. rewrite N.eqb_sym, E. cbn [orb]. apply IH. lia. }
  apply (H (length s)). lia.
Qed.

Lemma newlines_roundtrip_any t :
  linesep = nl \/ linesep = [13%N; 10%N] ->
  existsb (N.eqb 13) t = false ->
  read_newlines (write_newlines t) = t.
Proof.
  intros Hsep. unfold write_newlines.
  induction t as [|c t IH]; cbn [existsb flat_map]; [reflexivity|].
  rewrite orb_false_iff. intros [Hc Ht].
  assert ((c =? 13)%N = false) as Hc' by (rewrite N.eqb_sym; exact Hc).
  destruct (c =? 10)%N eqn:E.
  - apply N.eqb_eq in E. subst c. specialize (IH Ht).
    set (rest := flat_map _ t) in *.
    destruct Hsep as [E | E]; rewrite E; cbn; f_equal; exact IH.
  - cbn [app read_newlines]. rewrite Hc'. f_equal. apply IH, Ht.
Qed.

Lemma read_back_faithful t :
  linesep = nl \/ linesep = [13%N; 10%N] ->
  read_back t = t
  <-> existsb is_surrogate t = false /\ existsb (N.eqb 13) t = false.
Proof.
  intros Hsep. unfold read_back. split.
  - destruct (existsb is_surrogate t) eqn:Es.
    + intros <-. inversion Es.
    + intros H. split; [reflexivity|]. rewrite <- H.
      apply read_newlines_no_cr.
  - intros [-> Hc]. apply newlines_roundtrip_any; assumption.
Qed.

Lemma cache_set_get_any prompt model p t w :
  _cache_path prompt model = Ok p ->
  cache_writable w p = true ->
  _cache_get prompt model (_cache_set prompt model t w)
  = Ok (Some (read_back t)).
Proof.
  intros Hp Hw. rewrite cache_get_path. unfold _cache_set, read_back.
  cbn [ENABLE_CACHE negb]. rewrite Hp. cbn [bind]. rewrite Hw.
  destruct (existsb is_surrogate t); cbn [set_files cache_files];
    rewrite lookup_insert_eq; reflexivity.
Qed.

Lemma cache_set_unwritable prompt model p t w :
  _cache_path prompt model = Ok p ->
  cache_writable w p = false ->
  _cache_set prompt model t w = w.
Proof.
  intros Hp Hw. unfold _cache_set. cbn [ENABLE_CACHE negb]. rewrite Hp, Hw.
  reflexivity.
Qed.

Lemma cache_set_unencodable prompt model e t w :
  _cache_path prompt model = Raise e ->
  _cache_set prompt model t w = w.
Proof.
  intros Hp. unfold _cache_set. cbn [ENABLE_CACHE negb]. rewrite Hp.
  reflexivity.
Qed.

(** X7: writing a text to the cache and reading it back. When the file
    can be opened for writing, the entry read back is the text as the
    text-mode file returns it: the empty string when the text holds a
    surrogate (the file is truncated, then the write fails), otherwise
    the text with its line ends translated on the way out and back. With
    a line separator of [\n] or [\r\n] this is the text itself exactly
    when it holds neither a surrogate nor a carriage return. When the
    file cannot be opened, the write is dropped and nothing changes.
    When the path cannot be computed, the write is dropped as well and
    the read raises. *)
Theorem cache_write_read prompt model t w :
  (forall p,
     _cache_path prompt model = Ok p -> cache_writable w p = true ->
     _cache_get prompt model (_cache_set prompt model t w)
     = Ok (Some (read_back t)))
  /\ (forall p,
        _cache_path prompt model = Ok p -> cache_writable w p = true ->
        existsb is_surrogate t = true ->
        _cache_get prompt model (_cache_set prompt model t w) = Ok (Some []))
  /\ (forall p,
        _cache_path prompt model = Ok p -> cache_writable w p = true ->
        linesep = nl \/ linesep = [13%N; 10%N] ->
        (_cache_get prompt model (_cache_set prompt model t w) = Ok (Some t)
         <-> existsb is_surrogate t = false /\ existsb (N.eqb 13) t = false))
  /\ (forall p,
        _cache_path prompt model = Ok p -> cache_writable w p = false ->
        _cache_set prompt model t w = w)
  /\ (forall e,
        _cache_path prompt model = Raise e ->
        _cache_set prompt model t w = w
        /\ _cache_get prompt model w = Raise e).
Proof.
  split; [intros p Hp Hw; apply (cache_set_get_any _ _ p); assumption|].
  split.
  { intros p Hp Hw Hs. rewrite (cache_set_get_any _ _ p) by assumption.
    unfold read_back. rewrite Hs. reflexivity. }
  split.
  { intros p Hp Hw Hsep. rewrite (cache_set_get_any _ _ p) by assumption.
    rewrite <- (read_back_faithful t Hsep). split.
    - intros H. inversion H as [H1]. rewrite H1. exact H1.
    - intros ->. reflexivity. }
  split; [intros p Hp Hw; apply (cache_set_unwritable _ _ p); assumption|].
  intros e He. split; [apply (cache_set_unencodable _ _ e), He|].
  rewrite cache_get_path, He. reflexivity.
Qed.

(** X8: the call after a call that went out. When a call misses the
    cache and returns a text, the next call with the same inputs is
    served from the cache with what the file gives back, which is the
    empty string for a text with a surrogate; when the cache file cannot
    be written, the next call misses again and goes out again. *)
Theorem generate_again c prompt w t w1 p :
  _cache_get prompt (cache_model c) w = Ok None ->
  generate c prompt w = (Ok t, w1) ->
  _cache_path prompt (cache_model c) = Ok p ->
  (cache_writable w p = true ->
   generate c prompt w1 = (Ok (read_back t), w1))
  /\ (cache_writable w p = false ->
      _cache_get prompt (cache_model c) w1 = Ok None
      /\ exists call made,
           calls (snd (generate c prompt w1)) = calls w1 ++ call :: made).
Proof.
  intros Hmiss Hg Hp.
  assert (exists w0, w1 = _cache_set prompt (cache_model c) t w0
                     /\ cache_files w0 = cache_files w
                     /\ cache_writable w0 = cache_writable w) as (w0 & -> & Hf & Hw0).
  { pose proof (generate_miss c prompt w Hmiss) as M. rewrite Hg in M.
    inversion M as [m t' Hm Hp' [Ht Hw1]|m e' Hm Hno Hp'
                    |p0 f e' r Hc Hne Hp' Hr Heq].
    - eexists. split; [reflexivity|]. split; reflexivity.
    - subst c. cbn [cache_model]. destruct r as [t'|e2]; inversion Heq.
      eexists. split; [reflexivity|]. split; reflexivity. }
  split.
  - intros Hw. apply generate_hit, (cache_set_get_any _ _ p); [exact Hp|].
    rewrite Hw0. exact Hw.
  - intros Hw.
    rewrite (cache_set_unwritable _ _ p) by (rewrite ?Hw0; assumption).
    assert (_cache_get prompt (cache_model c) w0 = Ok None) as Hmiss0.
    { rewrite (cache_get_same_files _ _ w w0) by exact Hf. exact Hmiss. }
    split; [exact Hmiss0|].
    destruct (generate_miss _ _ _ Hmiss0) as [m t' _ _|m e _ _ _
                                              |primary fallback e r -> _ _ _].
    + exists (m, prompt), []. cbn [snd]. rewrite cache_set_calls.
      reflexivity.
    + exists (m, prompt), []. reflexivity.
    + exists (primary, prompt), [(fallback, prompt)].
      destruct r; cbn [snd]; rewrite ?cache_set_calls, !after_call_calls,
        <- app_assoc; reflexivity.
Qed.

End ClientFailures.

(** ** Shortening and capping *)

Lemma lstrip_head_ok s : head_ok (lstrip s) = true.
Proof.
  induction s as [|c s IH]; [reflexivity|]. cbn [lstrip].
  destruct (isspace c) eqn:E; [exact IH|]. cbn [head_ok]. rewrite E.
  reflexivity.
Qed.

Lemma lstrip_fixed s : head_ok s = true -> lstrip s = s.
Proof.
  destruct s as [|c s]; [reflexivity|]. cbn [head_ok lstrip].
  destruct (isspace c); [intros H; inversion H | reflexivity].
Qed.

Lemma lstrip_suffix s : exists p, s = p ++ lstrip s.
Proof.
  induction s as [|c s [p IH]]; [exists []; reflexivity|]. cbn [lstrip].
  destruct (isspace c); [|exists []; reflexivity].
  exists (c :: p). cbn [app]. f_equal. exact IH.
Qed.

Lemma rstrip_prefix s : exists q, s = rstrip s ++ q.
Proof.
  unfold rstrip. destruct (lstrip_suffix (rev s)) as [p H].
  exists (rev p). rewrite <- rev_app_distr, <- H, rev_involutive.
  reflexivity.
Qed.

Lemma rstrip_last_ok s : head_ok (rev (rstrip s)) = true.
Proof. unfold rstrip. rewrite rev_involutive. apply lstrip_head_ok. Qed.

Lemma rstrip_head_ok s : head_ok s = true -> head_ok (rstrip s) = true.
Proof.
  intros H. destruct (rstrip_prefix s) as [q Hq].
  destruct (rstrip s) as [|c r]; [reflexivity|].
  rewrite Hq in H. exact H.
Qed.

Lemma rstrip_fixed s : head_ok (rev s) = true -> rstrip s = s.
Proof.
  intros H. unfold rstrip. rewrite lstrip_fixed by exact H.
  apply rev_involutive.
Qed.

Lemma strip_stripped s : is_stripped (strip s) = true.
Proof.
  unfold is_stripped, strip. rewrite rstrip_last_ok, andb_true_r.
  apply rstrip_head_ok, lstrip_head_ok.
Qed.

Lemma strip_fixed s : is_stripped s = true -> strip s = s.
Proof.
  unfold is_stripped, strip. rewrite andb_true_iff. intros [H1 H2].
  rewrite (lstrip_fixed _ H1). apply rstrip_fixed, H2.
Qed.

Lemma ELLIPSIS_char : ELLIPSIS = [8230%N].
Proof. vm_compute. reflexivity. Qed.

Lemma cut_stripped s n :
  head_ok s = true -> is_stripped (rstrip (upto n s) ++ ELLIPSIS) = true.
Proof.
  intros H. unfold is_stripped. rewrite ELLIPSIS_char, rev_app_distr.
  cbn [rev app head_ok]. rewrite andb_true_r.
  assert (head_ok (upto n s) = true) as Hu.
  { unfold upto. destruct n, s; try reflexivity. exact H. }
  apply rstrip_head_ok in Hu.
  destruct (rstrip (upto n s)); [reflexivity | exact Hu].
Qed.

Lemma shorten_nonempty_input s n :
  s <> [] ->
  _shorten s n
  = if length (strip s) <=? n then strip s
    else rstrip (upto n (strip s)) ++ ELLIPSIS.
Proof. destruct s; [contradiction | reflexivity]. Qed.

Lemma shorten_fixed r n :
  is_stripped r = true -> length r <= n -> _shorten r n = r.
Proof.
  intros Hs Hl. destruct r as [|c r]; [reflexivity|].
  rewrite shorten_nonempty_input by (intros X; inversion X).
  rewrite (strip_fixed _ Hs).
  apply Nat.leb_le in Hl. rewrite Hl. reflexivity.
Qed.

(** X9: the text [_shorten] returns has no blank at either end, and
    shortening it again to the same bound changes nothing; [_cap_text] is
    the same function. *)
Theorem shorten_stable s n :
  is_stripped (_shorten s n) = true
  /\ _shorten (_shorten s n) n = _shorten s n
  /\ _cap_text s n = _shorten s n.
Proof.
  assert (head_ok (strip s) = true) as Hh.
  { pose proof (strip_stripped s) as H. unfold is_stripped in H.
    apply andb_true_iff in H. apply H. }
  split; [|split; [|reflexivity]].
  - destruct (shorten_cases s n) as [[_ ->]|[_ ->]];
      [apply strip_stripped | apply cut_stripped, Hh].
  - destruct (shorten_cases s n) as [[Hl ->]|[Hl ->]].
    + apply shorten_fixed; [apply strip_stripped | exact Hl].
    + set (x := rstrip (upto n (strip s))).
      pose proof (cut_stripped (strip s) n Hh) as Hst. fold x in Hst.
      assert (length x <= n) as Hx.
      { subst x. pose proof (rstrip_length (upto n (strip s))) as Hr.
        unfold upto in *. rewrite length_firstn in Hr. lia. }
      destruct (Nat.eq_dec (length x) n) as [E|E].
      * rewrite shorten_nonempty_input
          by (rewrite ELLIPSIS_char; destruct x; intros X; inversion X).
        rewrite (strip_fixed _ Hst), length_app, ELLIPSIS_length.
        replace (length x + 1 <=? n) with false
          by (symmetry; apply Nat.leb_gt; lia).
        unfold upto. rewrite firstn_app, <- E, firstn_all, Nat.sub_diag.
        cbn [firstn]. rewrite app_nil_r.
        rewrite (rstrip_fixed x) by (subst x; apply rstrip_last_ok).
        reflexivity.
      * apply shorten_fixed; [exact Hst|].
        rewrite length_app, ELLIPSIS_length. lia.
Qed.

(** X10: the answers sent to the model. [answers_capped] holds, in the
    order of the answers, the keys whose answer is a non-empty string;
    each value is the capped answer, at most [cap + 1] characters long
    and without a blank at either end (an answer of blanks only is sent
    as the empty string). *)
Theorem cap_answers_spec a cap :
  keys (cap_answers a cap) = keys (List.filter nonempty_answer a)
  /\ (forall k v, In (k, v) (cap_answers a cap) ->
        length v <= S cap /\ is_stripped v = true
        /\ exists raw, In (k, Some raw) a /\ raw <> []
                       /\ v = _cap_text raw cap)
  /\ (forall k raw, In (k, Some raw) a -> raw <> [] ->
        In (k, _cap_text raw cap) (cap_answers a cap)).
Proof.
  split; [|split].
  - unfold keys.
    induction a as [|[k [[|c v]|]] a IH];
      cbn [cap_answers List.filter nonempty_answer snd map fst];
      first [reflexivity | exact IH | f_equal; exact IH].
  - induction a as [|[k0 [[|c0 v0]|]] a IH]; intros k v; cbn [cap_answers In].
    + intros [].
    + intros H. destruct (IH _ _ H) as (H1 & H2 & raw & H3 & H4 & H5).
      repeat split; try assumption. exists raw. auto.
    + intros [H|H].
      * apply pair_equal_spec in H. destruct H as [<- <-].
        split; [exact (shorten_length (c0 :: v0) cap)|].
        split; [exact (proj1 (shorten_stable (c0 :: v0) cap))|].
        exists (c0 :: v0). split; [left; reflexivity|].
        split; [intros X; inversion X | reflexivity].
      * destruct (IH _ _ H) as (H1 & H2 & raw & H3 & H4 & H5).
        repeat split; try assumption. exists raw. auto.
    + intros H. destruct (IH _ _ H) as (H1 & H2 & raw & H3 & H4 & H5).
      repeat split; try assumption. exists raw. auto.
  - induction a as [|[k0 [[|c0 v0]|]] a IH]; intros k raw; cbn [cap_answers In].
    + intros [].
    + intros [H|H] Hne; [|eauto].
      apply pair_equal_spec in H. destruct H as [_ H]. inversion H.
      subst raw. contradiction.
    + intros [H|H] Hne; [|right; eauto].
      apply pair_equal_spec in H. destruct H as [<- H]. inversion H.
      left. reflexivity.
    + intros [H|H] Hne; [|eauto].
      apply pair_equal_spec in H. destruct H as [_ H]. inversion H.
Qed.

(** ** The readiness flag *)

Lemma starts_with_app p q t :
  starts_with (p ++ q) t = true ->
  exists r, t = p ++ r /\ starts_with q r = true.
Proof.
  revert t; induction p as [|x p IH]; intros t; cbn [app starts_with].
  - intros H. exists t. auto.
  - destruct t as [|y t]; [intros H; inversion H|].
    rewrite andb_true_iff, N.eqb_eq. intros [-> H].
    destruct (IH _ H) as (r & -> & Hr). exists r. auto.
Qed.

Lemma contains_skip q p r : contains q r = true -> contains q (p ++ r) = true.
Proof.
  intros H. induction p as [|x p IH]; [exact H|].
  cbn [app contains]. rewrite IH. apply orb_true_r.
Qed.

Lemma contains_suffix p q t :
  contains (p ++ q) t = true -> contains q t = true.
Proof.
  induction t as [|y t IH]; cbn [contains]; rewrite !orb_true_iff.
  - intros [H|H]; [|inversion H].
    destruct (starts_with_app _ _ _ H) as (r & Hr & Hs).
    left. destruct p; [|inversion Hr]. cbn in Hr. subst r. exact Hs.
  - intros [H|H].
    + destruct (starts_with_app _ _ _ H) as (r & Hr & Hs).
      assert (contains q (p ++ r) = true) as Hc.
      { apply contains_skip. destruct r; cbn [contains]; rewrite Hs;
          reflexivity. }
      rewrite <- Hr in Hc. cbn [contains] in Hc.
      apply orb_true_iff in Hc. exact Hc.
    + right. apply IH, H.
Qed.

Section Readiness.
Context `{rt : Runtime}.

(** X11: the readiness flag of the coerced record. A truthy model value
    is kept as it is; without one the flag is one of the four literals,
    [unknown] when there is no readiness answer. An answer whose
    lower-cased text holds [not ready] is flagged [ready_now]: the entry
    [not ready] of the third word list can never decide, the word [ready]
    of the first list being found in the same text before it is tried. *)
Theorem readiness_flag_spec pf raw a st :
  _coerce_schema pf raw a = Ok st ->
  let model := supplied raw (lit "readiness_flag") in
  let text := pick a [lit "readiness"] in
  (truthy model = true -> readiness_flag st = model)
  /\ (truthy model = false ->
      is_readiness_literal (readiness_flag st) = true
      /\ (text = [] -> readiness_flag st = PStr (lit "unknown"))
      /\ (text <> [] ->
          contains (lit "not ready") (str_lower text) = true ->
          readiness_flag st = PStr (lit "ready_now"))).
Proof.
  intros H model text.
  destruct (readiness_flag_of_record _ _ _ _ H) as [H1 H2].
  split; [exact H1|]. intros Hm.
  destruct (H2 Hm) as (L & U & N & _).
  split; [exact L|]. split; [exact U|].
  intros Hne Hc. apply N; [exact Hne|].
  unfold any_in. cbn [existsb].
  replace (lit "not ready") with (lit "not " ++ lit "ready") in Hc
    by (vm_compute; reflexivity).
  apply contains_suffix in Hc. fold text. rewrite Hc.
  destruct (contains (lit "immediate") (str_lower text)); reflexivity.
Qed.

End Readiness.

(** * Properties of the interview and of the run *)

Lemma dict_get_set_eq {V} (d : list (pystr * V)) k v :
  dict_get (dict_set d k v) k = Some v.
Proof.
  induction d as [|[k' v'] d IH]; cbn [dict_set dict_get].
  - rewrite str_eqb_refl. reflexivity.
  - destruct (str_eqb k' k) eqn:E; cbn [dict_get]; rewrite E;
      [reflexivity | exact IH].
Qed.

Lemma dict_get_set_ne {V} (d : list (pystr * V)) k v k' :
  k' <> k -> dict_get (dict_set d k v) k' = dict_get d k'.
Proof.
  intros Hne. induction d as [|[k0 v0] d IH]; cbn [dict_set dict_get].
  - replace (str_eqb k k') with false; [reflexivity|].
    symmetry. apply str_eqb_neq. congruence.
  - destruct (str_eqb k0 k) eqn:E; cbn [dict_get]; [|rewrite IH; reflexivity].
    apply str_eqb_eq in E. subst k0.
    replace (str_eqb k k') with false; [reflexivity|].
    symmetry. apply str_eqb_neq. congruence.
Qed.

Lemma keys_dict_set_new {V} (d : list (pystr * V)) k v :
  ~ In k (keys d) -> dict_set d k v = d ++ [(k, v)].
Proof.
  unfold keys. induction d as [|[k0 v0] d IH]; cbn [dict_set map fst In app];
    [reflexivity|].
  intros Hn. replace (str_eqb k0 k) with false.
  - f_equal. apply IH. tauto.
  - symmetry. apply str_eqb_neq. tauto.
Qed.

Lemma dict_get_not_key {V} (d : list (pystr * V)) k :
  ~ In k (keys d) -> dict_get d k = None.
Proof.
  unfold keys. induction d as [|[k0 v0] d IH]; cbn [dict_get map fst In];
    [reflexivity|].
  intros Hn. replace (str_eqb k0 k) with false; [apply IH; tauto|].
  symmetry. apply str_eqb_neq. tauto.
Qed.

Module InterviewFacts.
Import Interview.

Section Agent.
Variable MIN_ANSWER_CHARS : Z.

Lemma too_short_false_nonempty txt :
  _too_short MIN_ANSWER_CHARS txt = false -> exists v, txt = Some v /\ v <> [].
Proof.
  destruct txt as [[|c s]|]; cbn; try (intros H; inversion H; fail).
  intros _. exists (c :: s). split; [reflexivity | intros X; inversion X].
Qed.

Lemma second_answer_nonempty line :
  (if length (strip line) =? 0 then NO_RESPONSE else strip line) <> [].
Proof.
  destruct (strip line) as [|c s]; cbn [length Nat.eqb].
  - vm_compute. intros X; inversion X.
  - intros X; inversion X.
Qed.

Lemma record_answer_cases k user_text self c :
  match record_answer MIN_ANSWER_CHARS k user_text (self, c) with
  | (Returned _, (self', c')) =>
    (exists v, v <> []
       /\ answers self' = dict_set (answers self) k (Some v)
       /\ if _too_short MIN_ANSWER_CHARS user_text
          then exists line,
                 stdin c = line :: stdin c'
                 /\ v = (if length (strip line) =? 0 then NO_RESPONSE
                         else strip line)
          else user_text = Some v /\ stdin c' = stdin c)
    /\ length (turns self')
       = length (turns self)
         + (if _too_short MIN_ANSWER_CHARS user_text then 3 else 1)
    /\ index self' = index self /\ questions self' = questions self
  | (Raised e, (self', c')) =>
    e = EOFError /\ _too_short MIN_ANSWER_CHARS user_text = true
    /\ stdin c = [] /\ stdin c' = [] /\ answers self' = answers self
    /\ length (turns self') = length (turns self) + 2
    /\ index self' = index self /\ questions self' = questions self
  end.
Proof.
  unfold record_answer.
  destruct (_too_short MIN_ANSWER_CHARS user_text) eqn:Hs.
  - cbn [_log_turn snd fst tick stdin]. unfold input. cbn [stdin tick].
    destruct (stdin c) as [|line rest] eqn:Hin.
    + cbn [turns answers stdin index questions]. rewrite !length_app.
      cbn [length]. repeat split; first [lia | exact Hin].
    + cbn [_log_turn store_answer set_stdin stdin tick answers turns index
           questions].
      split; [|split; [|split]]; try reflexivity.
      * eexists. split; [apply (second_answer_nonempty line)|].
        split; [reflexivity|]. exists line. split; reflexivity.
      * rewrite !length_app. cbn [length]. lia.
  - destruct (too_short_false_nonempty _ Hs) as (v & -> & Hv).
    cbn [_log_turn store_answer set_stdin stdin tick answers turns index
         questions].
    split; [|split; [|split]]; try reflexivity.
    + exists v. split; [exact Hv|]. split; [|split]; reflexivity.
    + rewrite !length_app. cbn [length]. lia.
Qed.

(** X12: what [record_answer] does with one answer. An answer that is
    not too short is stored as it was passed and no input is read. One
    that is too short (or [None]) costs exactly one more line of input:
    that line, stripped, is stored whatever its length, or the text
    [(no response provided)] when it is blank. So a stored answer is
    never empty. The call raises only [EOFError], when the answer is too
    short and the input is at its end, and then stores nothing. The
    answers under the other keys, the questions and the position stay;
    the turns grow by one, or by three after a second answer. *)
Theorem record_answer_spec k user_text self c :
  match record_answer MIN_ANSWER_CHARS k user_text (self, c) with
  | (Returned _, (self', c')) =>
    (exists v, v <> [] /\ answers_get (answers self') k = Some v
       /\ if _too_short MIN_ANSWER_CHARS user_text
          then exists line,
                 stdin c = line :: stdin c'
                 /\ v = (if length (strip line) =? 0 then NO_RESPONSE
                         else strip line)
          else user_text = Some v /\ stdin c' = stdin c)
    /\ (forall k', k' <> k ->
          dict_get (answers self') k' = dict_get (answers self) k')
    /\ length (turns self')
       = length (turns self)
         + (if _too_short MIN_ANSWER_CHARS user_text then 3 else 1)
    /\ index self' = index self /\ questions self' = questions self
  | (Raised e, (self', c')) =>
    e = EOFError /\ _too_short MIN_ANSWER_CHARS user_text = true
    /\ stdin c = [] /\ answers self' = answers self
    /\ length (turns self') = length (turns self) + 2
  end.
Proof.
  pose proof (record_answer_cases k user_text self c) as H.
  destruct (record_answer MIN_ANSWER_CHARS k user_text (self, c))
    as [[u|e] [self' c']].
  - destruct H as ((v & Hv & Ha & Hin) & Ht & Hi & Hq).
    split; [|split; [|split; [|split]]]; try assumption.
    + exists v. split; [exact Hv|]. split; [|exact Hin].
      rewrite Ha. unfold answers_get. rewrite dict_get_set_eq.
      destruct v; [contradiction | reflexivity].
    + intros k' Hk. rewrite Ha. apply dict_get_set_ne, Hk.
  - tauto.
Qed.

End Agent.
End InterviewFacts.

(** ** The question round *)

Module FaqFacts.
Import Faq.

Lemma join_cons_map {A} (f : A -> pystr) sep h l :
  join sep (h :: List.map f l) = h ++ flat_map (fun x => sep ++ f x) l.
Proof.
  revert h; induction l as [|x l IH]; intros h; cbn [map flat_map].
  - cbn [join]. rewrite app_nil_r. reflexivity.
  - change (join sep (h :: f x :: List.map f l))
      with (h ++ sep ++ join sep (f x :: List.map f l)).
    rewrite IH, <- app_assoc. reflexivity.
Qed.

Lemma render_faq_md_unfold faq_pairs :
  faq_pairs <> [] ->
  render_faq_md faq_pairs
  = FAQ_HEADING ++ flat_map (fun p => nl ++ faq_line p) faq_pairs.
Proof.
  intros Hne. unfold render_faq_md.
  destruct faq_pairs as [|p l]; [contradiction|]. apply join_cons_map.
Qed.

Lemma render_faq_md_nonempty faq_pairs :
  faq_pairs <> [] -> render_faq_md faq_pairs <> [].
Proof.
  intros Hne. rewrite render_faq_md_unfold by exact Hne.
  unfold FAQ_HEADING. cbn [nl app]. intros X; inversion X.
Qed.

(** X13: the markdown of the question round is empty exactly when there
    is no pair; otherwise it is the heading followed, for each pair in
    order, by a line feed and the two lines of the pair. *)
Theorem render_faq_md_spec faq_pairs :
  (render_faq_md faq_pairs = [] <-> faq_pairs = [])
  /\ (faq_pairs <> [] ->
      render_faq_md faq_pairs
      = FAQ_HEADING ++ flat_map (fun p => nl ++ faq_line p) faq_pairs).
Proof.
  split; [|apply render_faq_md_unfold].
  split; [|intros ->; reflexivity].
  destruct faq_pairs as [|p l]; [reflexivity|]. intros E.
  destruct (render_faq_md_nonempty (p :: l)); [intros X; inversion X|exact E].
Qed.

Section Rounds.
Context `{rt : Runtime}.
Variable exn_str : exn -> pystr.







End Rounds.
End FaqFacts.

(** ** The run *)

Module RunFacts.
Import Interview Logger Faq Main.

Lemma nth_error_split_at {A} (l : list A) i x :
  nth_error l i = Some x ->
  firstn (i + 1) l = firstn i l ++ [x]
  /\ l = firstn i l ++ x :: skipn (S i) l.
Proof.
  revert i; induction l as [|y l IH]; intros [|i]; cbn;
    try (intros H; inversion H; fail).
  - intros H; inversion H; auto.
  - intros H. destruct (IH _ H) as [H1 H2]. split; f_equal; assumption.
Qed.

Lemma key_not_before (qs : list question) i q :
  List.NoDup (List.map key qs) ->
  nth_error qs i = Some q ->
  ~ In (key q) (List.map key (firstn i qs)).
Proof.
  intros Hnd Hq. destruct (nth_error_split_at _ _ _ Hq) as [_ Hs].
  rewrite Hs, map_app in Hnd. cbn [map] in Hnd.
  apply List.NoDup_remove_2 in Hnd. intros Hin. apply Hnd.
  apply in_or_app. left. exact Hin.
Qed.

Lemma required_keys :
  List.map key REQUIRED_QUESTIONS
  = [lit "background"; lit "why_company"; lit "experience";
     lit "future_goals"; lit "readiness"].
Proof. reflexivity. Qed.

Lemma required_keys_nodup : List.NoDup (List.map key REQUIRED_QUESTIONS).
Proof.
  replace (List.map key REQUIRED_QUESTIONS)
    with (first_occurrences (List.map key REQUIRED_QUESTIONS))
    by (vm_compute; reflexivity).
  apply first_occurrences_nodup.
Qed.

Section Run.
Context `{rt : Runtime}.
Variable cfg : config.
Variable MIN_ANSWER_CHARS : Z.
Variable principles_file : text_file.
Variable faq_file : text_file.
Variable exn_str : exn -> pystr.

Lemma interview_round_cases s q :
  nth_error (questions (agent s)) (index (agent s)) = Some q ->
  net (snd (interview_round MIN_ANSWER_CHARS s)) = net s
  /\ questions (agent (snd (interview_round MIN_ANSWER_CHARS s))) = questions (agent s)
  /\ match interview_round MIN_ANSWER_CHARS s with
     | (Returned _, s') =>
       index (agent s') = index (agent s) + 1
       /\ (exists v, v <> []
             /\ answers (agent s')
                = dict_set (answers (agent s)) (key q) (Some v))
       /\ (exists used,
             stdin (term s) = used ++ stdin (term s')
             /\ 1 <= length used <= 2)
     | (Raised e, s') =>
       e = EOFError /\ length (stdin (term s)) < 2 /\ stdin (term s') = []
     end.
Proof.
  intros Hq. unfold interview_round, next_question. cbn [fst]. rewrite Hq.
  cbn [_log_turn fst snd]. unfold input. cbn [stdin tick].
  destruct (stdin (term s)) as [|line rest] eqn:Hin.
  - cbn [snd fst net agent term questions stdin].
    repeat split; first [reflexivity | exact Hin | cbn; lia].
  - cbn [fst snd set_stdin].
    match goal with
    | |- context [record_answer _ ?k ?u (?a, ?c)] =>
      pose proof (InterviewFacts.record_answer_cases MIN_ANSWER_CHARS k u a c)
        as H;
      destruct (record_answer MIN_ANSWER_CHARS k u (a, c))
        as [[u'|e] [self' c']]
    end.
    + destruct H as ((v & Hv & Ha & Hcase) & _ & Hi & Hqs).
      cbn [answers index questions stdin set_stdin tick] in Ha, Hi, Hqs, Hcase.
      assert (exists used, line :: rest = used ++ stdin c'
                           /\ 1 <= length used <= 2) as Hused.
      { destruct (_too_short _ _).
        - destruct Hcase as (l2 & Hl2 & _). exists [line; l2].
          rewrite Hl2. cbn. split; [reflexivity | lia].
        - destruct Hcase as [_ ->]. exists [line]. cbn.
          split; [reflexivity | lia]. }
      unfold log_turn.
      destruct (acknowledge (Some (strip line)));
        cbn [fst snd net agent term questions index answers stdin tick];
        repeat split; eauto.
    + destruct H as (-> & _ & Hnil & Hnil' & _ & _ & _ & Hqs).
      cbn [stdin questions set_stdin tick] in Hnil, Hqs.
      cbn [fst snd net agent term questions stdin].
      repeat split; auto. rewrite Hnil. cbn. lia.
Qed.

Lemma round_in_order s s' u :
  in_order s -> has_next (agent s) = true ->
  interview_round MIN_ANSWER_CHARS s = (Returned u, s') ->
  in_order s'
  /\ questions (agent s') = questions (agent s)
  /\ index (agent s') = index (agent s) + 1
  /\ net s' = net s
  /\ exists used,
       stdin (term s) = used ++ stdin (term s') /\ 1 <= length used <= 2.
Proof.
  intros (Hnd & Hle & Hk & Ha) Hn Hr. unfold has_next in Hn.
  apply Nat.ltb_lt in Hn.
  destruct (nth_error (questions (agent s)) (index (agent s))) as [q|] eqn:Hq;
    [|apply nth_error_None in Hq; lia].
  destruct (interview_round_cases s q Hq) as (Hnet & Hqs & H).
  rewrite Hr in Hnet, Hqs, H. cbn [snd] in Hnet, Hqs.
  destruct H as (Hi & (v & Hv & Hans) & Hused).
  split; [|auto].
  pose proof (key_not_before _ _ _ Hnd Hq) as Hnew. rewrite <- Hk in Hnew.
  rewrite (keys_dict_set_new _ _ _ Hnew) in Hans.
  unfold in_order. rewrite Hqs, Hi, Hans. split; [exact Hnd|].
  split; [lia|]. split.
  - unfold keys in *. rewrite map_app, Hk.
    rewrite (proj1 (nth_error_split_at _ _ _ Hq)), map_app. reflexivity.
  - intros k0 v0 Hin. apply in_app_or in Hin. destruct Hin as [Hin|Hin].
    + apply (Ha _ _ Hin).
    + destruct Hin as [Hin|[]]. inversion Hin. eauto.
Qed.

Lemma loop_result fuel s r s' :
  in_order s -> interview_loop MIN_ANSWER_CHARS fuel s = Some (r, s') ->
  net s' = net s
  /\ match r with
     | Returned _ =>
       keys (answers (agent s')) = List.map key (questions (agent s))
       /\ answered (answers (agent s'))
       /\ exists used,
            stdin (term s) = used ++ stdin (term s')
            /\ length (questions (agent s)) - index (agent s) <= length used
            /\ length used
               <= 2 * (length (questions (agent s)) - index (agent s))
     | Raised e =>
       e = EOFError
       /\ length (stdin (term s))
          < 2 * (length (questions (agent s)) - index (agent s))
       /\ stdin (term s') = []
     end.
Proof.
  revert s; induction fuel as [|fuel IH]; intros s Hinv; cbn [interview_loop];
    destruct (has_next (agent s)) eqn:Hn.
  - intros H; inversion H.
  - intros H; inversion H; subst. clear H. split; [reflexivity|].
    destruct Hinv as (_ & Hle & Hk & Ha). unfold has_next in Hn.
    apply Nat.ltb_ge in Hn.
    assert (index (agent s') = length (questions (agent s'))) as E by lia.
    rewrite E, firstn_all in Hk. split; [exact Hk|]. split; [exact Ha|].
    exists []. cbn. split; [reflexivity | lia].
  - destruct (interview_round MIN_ANSWER_CHARS s) as [[u|e] s1] eqn:Hr.
    + intros Hl.
      destruct (round_in_order _ _ _ Hinv Hn Hr)
        as (Hinv1 & Hqs & Hi & Hnet & used1 & Hu1 & Hlen1).
      destruct (IH _ Hinv1 Hl) as [Hnet' H]. split; [congruence|].
      unfold has_next in Hn. apply Nat.ltb_lt in Hn.
      rewrite Hqs, Hi in H. destruct r as [u'|e].
      * destruct H as (Hk & Ha & used & Hu & Hlo & Hhi).
        split; [exact Hk|]. split; [exact Ha|].
        exists (used1 ++ used). rewrite <- app_assoc, <- Hu.
        split; [exact Hu1|]. rewrite length_app. lia.
      * destruct H as (-> & Hlt & Hnil). split; [reflexivity|].
        split; [|exact Hnil]. rewrite Hu1, length_app. lia.
    + intros H; inversion H; subst. clear H.
      unfold has_next in Hn. apply Nat.ltb_lt in Hn.
      destruct (nth_error (questions (agent s)) (index (agent s)))
        as [q|] eqn:Hq; [|apply nth_error_None in Hq; lia].
      destruct (interview_round_cases s q Hq) as (Hnet & _ & H).
      rewrite Hr in Hnet, H. cbn [snd] in Hnet.
      destruct H as (-> & Hlt & Hnil). split; [exact Hnet|].
      split; [reflexivity|]. split; [lia | exact Hnil].
  - intros H; inversion H; subst. clear H. split; [reflexivity|].
    destruct Hinv as (_ & Hle & Hk & Ha). unfold has_next in Hn.
    apply Nat.ltb_ge in Hn.
    assert (index (agent s') = length (questions (agent s'))) as E by lia.
    rewrite E, firstn_all in Hk. split; [exact Hk|]. split; [exact Ha|].
    exists []. cbn. split; [reflexivity | lia].
Qed.

Lemma loop_total fuel s :
  in_order s ->
  length (questions (agent s)) - index (agent s) <= fuel ->
  exists r s', interview_loop MIN_ANSWER_CHARS fuel s = Some (r, s').
Proof.
  revert s; induction fuel as [|fuel IH]; intros s Hinv Hf;
    cbn [interview_loop]; destruct (has_next (agent s)) eqn:Hn; eauto.
  - unfold has_next in Hn. apply Nat.ltb_lt in Hn. lia.
  - destruct (interview_round MIN_ANSWER_CHARS s) as [[u|e] s1] eqn:Hr; [|eauto].
    destruct (round_in_order _ _ _ Hinv Hn Hr) as (Hinv1 & Hqs & Hi & _).
    apply IH; [exact Hinv1|]. rewrite Hqs, Hi. lia.
Qed.

Lemma entry_in_order c w :
  in_order (entry c w)
  /\ questions (agent (entry c w)) = REQUIRED_QUESTIONS
  /\ index (agent (entry c w)) = 0
  /\ stdin (term (entry c w)) = stdin c
  /\ net (entry c w) = w.
Proof.
  unfold entry, start, in_order.
  cbn [_log_turn InterviewAgent_init agent term net questions index answers
       stdin tick].
  repeat split; try reflexivity.
  - apply required_keys_nodup.
  - lia.
  - intros k v [].
Qed.

Lemma entry_loop_result fuel c w r s' :
  interview_loop MIN_ANSWER_CHARS fuel (entry c w) = Some (r, s') ->
  net s' = w
  /\ match r with
     | Returned _ =>
       keys (answers (agent s')) = List.map key REQUIRED_QUESTIONS
       /\ answered (answers (agent s'))
       /\ exists used,
            stdin c = used ++ stdin (term s')
            /\ 5 <= length used <= 10
     | Raised e =>
       e = EOFError /\ length (stdin c) < 10 /\ stdin (term s') = []
     end.
Proof.
  intros H. destruct (entry_in_order c w) as (Hinv & Hq & Hi & Hin & Hnet).
  destruct (loop_result _ _ _ _ Hinv H) as [Hn Hr].
  rewrite Hq, Hi, Hin in Hr. rewrite Hnet in Hn. split; [exact Hn|].
  change (length REQUIRED_QUESTIONS - 0) with 5 in Hr.
  destruct r as [u|e]; [|exact Hr].
  destruct Hr as (Hk & Ha & used & Hu & Hlo & Hhi). eauto 10.
Qed.

Lemma entry_loop_total fuel c w :
  5 <= fuel ->
  exists r s', interview_loop MIN_ANSWER_CHARS fuel (entry c w) = Some (r, s').
Proof.
  intros Hf. destruct (entry_in_order c w) as (Hinv & Hq & Hi & _).
  apply loop_total; [exact Hinv|]. rewrite Hq, Hi. cbn. lia.
Qed.

(** X15: the interview loop, entered after [agent.start()]. Five rounds
    end it. It raises nothing but [EOFError], and only when fewer than
    ten lines of input are left; otherwise it reads between five and ten
    lines (a second line for each answer that was too short) and leaves
    an answer that is a non-empty string under each of the keys
    [background], [why_company], [experience], [future_goals] and
    [readiness], in this order, and under no other key. No outbound call
    is made. *)
Theorem interview_collects_answers fuel c w :
  5 <= fuel ->
  exists r s',
    interview_loop MIN_ANSWER_CHARS fuel (entry c w) = Some (r, s')
    /\ net s' = w
    /\ match r with
       | Returned _ =>
         keys (answers (agent s'))
         = [lit "background"; lit "why_company"; lit "experience";
            lit "future_goals"; lit "readiness"]
         /\ answered (answers (agent s'))
         /\ exists used,
              stdin c = used ++ stdin (term s') /\ 5 <= length used <= 10
       | Raised e =>
         e = EOFError /\ length (stdin c) < 10 /\ stdin (term s') = []
       end.
Proof.
  intros Hf. destruct (entry_loop_total fuel c w Hf) as (r & s' & H).
  exists r, s'. split; [exact H|].
  destruct (entry_loop_result _ _ _ _ _ H) as [Hn Hr]. split; [exact Hn|].
  destruct r; [|exact Hr]. rewrite <- required_keys. exact Hr.
Qed.

(** *** After the interview *)

Lemma after_interview_cases s :
  match faq_loop exn_str cfg faq_file (term s, net s) with
  | (Raised e, (c, w)) =>
    fst (after_interview cfg principles_file faq_file exn_str s) = Raised e
    /\ net (snd (after_interview cfg principles_file faq_file exn_str s)) = w
  | (Returned faq_pairs, (c, w)) =>
    match summarize_session cfg principles_file
            (summary_input (build_session (agent s))) w with
    | (Raise e, w') =>
      fst (after_interview cfg principles_file faq_file exn_str s)
      = Raised (Propagated e)
    | (Ok (md, st), w') =>
      exists s',
        after_interview cfg principles_file faq_file exn_str s
        = (Returned
             {| session_obj := build_session (agent s);
                session_faq := faq_pairs;
                summary_md :=
                  match faq_pairs with
                  | [] => md
                  | _ => md ++ nl ++ lit "---" ++ nl ++ render_faq_md faq_pairs
                  end;
                summary_json := st;
                faq_markdown :=
                  match faq_pairs with
                  | [] => None
                  | _ => Some (render_faq_md faq_pairs)
                  end;
                transcript_lines := logger_lines s |}, s')
    end
  end.
Proof.
  unfold after_interview.
  destruct (faq_loop exn_str cfg faq_file (term s, net s))
    as [[faq_pairs|e] [c w]]; [|split; reflexivity].
  destruct (summarize_session cfg principles_file
              (summary_input (build_session (agent s))) w)
    as [[[md st]|e] w']; [|reflexivity].
  eexists.
  destruct faq_pairs as [|p l]; [reflexivity|].
  destruct (render_faq_md (p :: l)) eqn:E; [|reflexivity].
  destruct (FaqFacts.render_faq_md_nonempty (p :: l));
    [intros X; inversion X | exact E].
Qed.




(** X17: a run without a client never reaches the summary. When the
    client cannot be built, the stages return no result whatever the
    input, also with the model summary switched off, and no outbound
    call is made; when the input holds at least ten lines, the interview
    is held to its end, the five answers are collected, and then the
    exception of the client leaves the run, or, when the FAQ file is
    there and cannot be read, what that read raises. *)
Theorem run_needs_client fuel c w e r s :
  LLMClient_init cfg = Raise e ->
  run_stages cfg MIN_ANSWER_CHARS principles_file faq_file exn_str fuel c w
  = Some (r, s) ->
  (exists e', r = Raised e')
  /\ net s = w
  /\ (10 <= length (stdin c) ->
      (readable faq_file = true -> r = Raised (Propagated e))
      /\ (forall e', faq_file = Fails e' -> r = Raised (Propagated e'))
      /\ keys (answers (agent s))
         = [lit "background"; lit "why_company"; lit "experience";
            lit "future_goals"; lit "readiness"]
      /\ answered (answers (agent s))).
Proof.
  intros Hc. unfold run_stages.
  destruct (interview_loop MIN_ANSWER_CHARS fuel (entry c w))
    as [[[u|e1] s1]|] eqn:Hl; [| |intros X; inversion X].
  - destruct (entry_loop_result _ _ _ _ _ Hl) as [Hn (Hk & Ha & _)].
    unfold after_interview, faq_loop. rewrite Hc.
    destruct faq_file as [|ft0|e0]; cbn [_read_faq_text readable];
      intros X; inversion X; subst; clear X;
      cbn [net agent]; rewrite <- required_keys;
      (split; [eauto|]); (split; [reflexivity|]); intros _;
      (split; [first [reflexivity | intros X; inversion X]|]);
      (split; [intros e' X; inversion X; reflexivity|]); auto.
  - destruct (entry_loop_result _ _ _ _ _ Hl) as [Hn (-> & Hlt & _)].
    intros X; inversion X; subst. clear X.
    split; [eauto|]. split; [reflexivity|]. intros Hlen. lia.
Qed.

Lemma dict_get_key {V} (d : list (pystr * V)) k :
  In k (keys d) -> exists v, dict_get d k = Some v /\ In (k, v) d.
Proof.
  unfold keys. induction d as [|[k0 v0] d IH]; cbn [map fst In dict_get];
    [intros []|].
  destruct (str_eqb k0 k) eqn:E.
  - intros _. apply str_eqb_eq in E. subst. eauto.
  - intros [H|H]; [apply str_eqb_neq in E; contradiction|].
    destruct (IH H) as (v & Hv & Hin). eauto.
Qed.

(** X18: the answer to the second question never reaches the summary.
    The interview stores it under the key [why_company]; the summary
    reads the motivation from the keys [why_lunartech] and [motivation],
    which the interview never sets. So in every summary a run produces,
    with or without the model, the field [why_lunartech] of
    [raw_answers] is empty although the answer stored is not, and the
    suitability heuristic sees the experience answer alone. *)
Theorem motivation_never_reaches_summary fuel c w res s :
  run_stages cfg MIN_ANSWER_CHARS principles_file faq_file exn_str fuel c w
  = Some (Returned res, s) ->
  let a := session_answers_of (session_obj res) in
  (exists t, t <> [] /\ answers_get a (lit "why_company") = Some t)
  /\ why_lunartech (raw_answers (summary_json res)) = []
  /\ infer_suitability a
     = (if 120 <? length (pick a [lit "experience"]) then lit "strong"
        else if 40 <? length (pick a [lit "experience"]) then lit "average"
        else lit "weak").
Proof.
  unfold run_stages.
  destruct (interview_loop MIN_ANSWER_CHARS fuel (entry c w))
    as [[[u|e1] s1]|] eqn:Hl; try (intros X; inversion X; fail).
  destruct (entry_loop_result _ _ _ _ _ Hl) as [Hn (Hk & Ha & _)].
  rewrite required_keys in Hk.
  pose proof (after_interview_cases s1) as H.
  destruct (faq_loop exn_str cfg faq_file (term s1, net s1))
    as [[pairs|e] [c2 w2]].
  2:{ destruct H as [H _]. intros X. inversion X as [X'].
      rewrite X' in H. inversion H. }
  destruct (summarize_session cfg principles_file
              (summary_input (build_session (agent s1))) w2)
    as [[[md st]|e] w3] eqn:Hs.
  2:{ intros X. inversion X as [X']. rewrite X' in H. inversion H. }
  destruct H as (s' & ->).
  intros X; inversion X; subst. clear X.
  assert (readable principles_file = true) as Hpf.
  { destruct principles_file as [| |e0]; try reflexivity.
    rewrite summarize_session_fails in Hs. inversion Hs. }
  cbn [session_obj summary_json build_session session_answers_of].
  assert (pick (answers (agent s1)) [lit "why_lunartech"; lit "motivation"]
          = []) as Hpick.
  { cbn [pick]. unfold answers_get.
    rewrite !dict_get_not_key; [reflexivity| |];
      rewrite Hk; vm_compute; intuition congruence. }
  split; [|split].
  - destruct (dict_get_key (answers (agent s1)) (lit "why_company"))
      as (v & Hv & Hin); [rewrite Hk; cbn; auto|].
    destruct (Ha _ _ Hin) as (t & -> & Ht). exists t.
    split; [exact Ht|]. unfold answers_get. rewrite Hv. reflexivity.
  - destruct (summarize_session_raw_answers cfg principles_file
                (summary_input (build_session (agent s1))) w2 Hpf)
      as (md' & st' & w' & Hs' & Hraw).
    rewrite Hs in Hs'. inversion Hs'; subst.
    rewrite Hraw. cbn [resolve_answers why_lunartech summary_input
                       answers_of session_answers build_session
                       session_answers_of].
    exact Hpick.
  - unfold infer_suitability. rewrite Hpick. reflexivity.
Qed.

(** X19: what a round of the interview leaves in the transcript. The
    logger is handed the first line the candidate typed, stripped, also
    when that answer was too short and a second one was asked for and
    stored; the question, the request for more detail and the second
    answer are not logged. An acknowledgement line follows exactly when
    the first line has more than 20 characters. *)
Theorem round_transcript s q line rest u s' :
  nth_error (questions (agent s)) (index (agent s)) = Some q ->
  stdin (term s) = line :: rest ->
  interview_round MIN_ANSWER_CHARS s = (Returned u, s') ->
  exists ts1 ts2,
    logger_lines s'
    = logger_lines s
      ++ transcript_line ts1 (lit "user") (strip line)
         :: (if 20 <? length (strip line)
             then [transcript_line ts2 (lit "agent") (lit "Thanks, that helps.")]
             else []).
Proof.
  intros Hq Hin. unfold interview_round, next_question. cbn [fst]. rewrite Hq.
  cbn [_log_turn fst snd]. unfold input. cbn [stdin tick]. rewrite Hin.
  cbn [fst snd set_stdin].
  match goal with
  | |- context [record_answer _ ?k ?v (?a, ?c)] =>
    destruct (record_answer MIN_ANSWER_CHARS k v (a, c)) as [[u'|e] [self' c']]
  end; [|intros X; inversion X].
  unfold log_turn, acknowledge. fold (transcript_line
    (strftime_at (self', c').2 (clock_reads (self', c').2))
    (lit "user") (strip line)).
  destruct (strip line) as [|ch t] eqn:Es.
  - intros X; inversion X; subst. cbn [logger_lines length Nat.ltb Nat.leb].
    eexists _, []. reflexivity.
  - destruct (20 <? length (ch :: t)) eqn:El.
    + assert (exists c0 l0, lit "Thanks, that helps." = c0 :: l0) as (c0 & l0 & E)
        by (vm_compute; eauto).
      rewrite E. intros X; inversion X; subst. cbn [logger_lines].
      rewrite <- E, <- app_assoc. eexists _, _. reflexivity.
    + intros X; inversion X; subst. cbn [logger_lines].
      eexists _, []. reflexivity.
Qed.

End Run.
End RunFacts.

(** * Further examples *)

Module MoreExamples.
Import Interview Logger Faq Main MoreSamples.

(** X1 at a model value that is no suitability literal and an experience
    answer of 41 characters. *)
Lemma suitability_witness :
  match _coerce_schema (rt := R) Missing
          (PDict [(lit "suitability", PStr (lit "excellent"))])
          [(lit "experience", Some (repeat 97%N 41))] with
  | Ok st => suitability st = PStr (lit "average")
  | Raise _ => False
  end.
Proof.
  destruct (_coerce_schema _ _ _) as [st|e] eqn:H;
    [|vm_compute in H; inversion H].
  destruct (suitability_spec (rt := R) _ _ _ _ H) as (_ & _ & Hh).
  destruct (coerce_schema_inv _ _ _ _ H) as (d & nd & al & Hd & _ & _ & ->).
  inversion Hd; subst d.
  apply Hh; [vm_compute; reflexivity | | | ]; vm_compute; lia.
Defined.

(** X2 at a record built from a model output with a number where the
    evaluation is expected. *)
Lemma render_coerced_witness :
  match _coerce_schema (rt := R) Missing (PDict [(lit "evaluation", PInt 5)]) [] with
  | Ok st => exists md, _render_markdown (rt := R) st = Ok md
  | Raise _ => False
  end.
Proof.
  destruct (_coerce_schema _ _ _) as [st|e] eqn:H;
    [|vm_compute in H; inversion H].
  exact (proj1 (render_coerced_ok (rt := R) _ _ _ _ H)).
Defined.

(** X4 at a backend that answers with a JSON array. *)
Lemma unusable_response_witness :
  exists md w1,
    summarize_session (rt := R) openai_config Missing sample_session array_world
    = (Ok (md, template_record (rt := R) Missing (answers_of sample_session)), w1).
Proof.
  pose (c := OpenAIClient (lit "gpt-4o-mini") (lit "gpt-4o")).
  pose (p := llm_prompt (rt := R) openai_config Missing sample_session).
  assert (generate (rt := R) c p array_world
          = (Ok (lit "[1]"), snd (generate (rt := R) c p array_world))) as Hg
    by (vm_compute; reflexivity).
  destruct (unusable_response_falls_back (rt := R) openai_config Missing
              sample_session array_world c (lit "[1]") _ eq_refl
              ltac:(vm_compute; reflexivity) ltac:(vm_compute; reflexivity) Hg)
    as [md Hmd].
  - intros d Hd. vm_compute in Hd. inversion Hd.
  - exists md. eexists. exact Hmd.
Defined.

(** X5 at a backend that answers in prose. *)
Lemma empty_extraction_witness :
  exists md st w1,
    summarize_session (rt := R) openai_config Missing sample_session prose_world
    = (Ok (md, st), w1)
    /\ evaluation st
       = PStr (lit "Automated notes generated; consider human review for final decision.").
Proof.
  pose (c := OpenAIClient (lit "gpt-4o-mini") (lit "gpt-4o")).
  pose (p := llm_prompt (rt := R) openai_config Missing sample_session).
  assert (generate (rt := R) c p prose_world
          = (Ok (lit "I would rather not say."),
             snd (generate (rt := R) c p prose_world))) as Hg
    by (vm_compute; reflexivity).
  destruct (empty_extraction_gives_heuristics (rt := R) openai_config Missing
              sample_session prose_world c _ _ eq_refl
              ltac:(vm_compute; reflexivity) ltac:(vm_compute; reflexivity) Hg
              ltac:(vm_compute; reflexivity))
    as (md & st & Hs & _ & He & _).
  exists md, st. eexists. split; [exact Hs | exact He].
Defined.

(** X6 at a backend on which both models fail, and at a prompt with a
    lone surrogate. *)
Lemma generate_failure_witness :
  let c := OpenAIClient (lit "gpt-4o-mini") (lit "gpt-4o") in
  _cache_get (rt := R) (lit "hello") (cache_model c) failing_world = Ok None
  /\ generate (rt := R) c [104%N; 55357%N] failing_world
     = (Raise UnicodeEncodeError, failing_world).
Proof.
  intros c.
  assert (generate (rt := R) c (lit "hello") failing_world
          = (Raise (LibraryError 503),
             snd (generate (rt := R) c (lit "hello") failing_world))) as Hg
    by (vm_compute; reflexivity).
  split.
  - destruct (proj1 (generate_failure_spec (rt := R) c (lit "hello")
                       failing_world) _ _ Hg) as [(_ & He & _)|[Hm _]];
      [inversion He | exact Hm].
  - apply (proj2 (generate_failure_spec (rt := R) c [104%N; 55357%N]
                    failing_world)).
    vm_compute. reflexivity.
Defined.

(** X8 at an answer with a lone surrogate: the next call returns the
    empty string. *)
Lemma generate_again_witness :
  let c := MistralClient (lit "mistral-medium-latest") in
  let w1 := snd (generate (rt := R) c (lit "hello") surrogate_world) in
  fst (generate (rt := R) c (lit "hello") surrogate_world)
  = Ok [104%N; 55357%N]
  /\ fst (generate (rt := R) c (lit "hello") w1) = Ok [].
Proof.
  intros c w1.
  assert (generate (rt := R) c (lit "hello") surrogate_world
          = (Ok [104%N; 55357%N], w1)) as Hg by (vm_compute; reflexivity).
  split; [rewrite Hg; reflexivity|].
  rewrite (proj1 (generate_again (rt := R) c (lit "hello") surrogate_world _ _
                    (cache_file (rt := R) (lit "hello")
                       (lit "mistral-medium-latest"))
                    ltac:(vm_compute; reflexivity) Hg
                    ltac:(vm_compute; reflexivity))
             ltac:(vm_compute; reflexivity)).
  vm_compute. reflexivity.
Defined.

(** X11 at an answer that says the candidate is not ready. *)
Lemma readiness_flag_witness :
  match _coerce_schema (rt := R) Missing (PDict [])
          [(lit "readiness", Some (lit "I am NOT ready yet"))] with
  | Ok st => readiness_flag st = PStr (lit "ready_now")
  | Raise _ => False
  end.
Proof.
  destruct (_coerce_schema _ _ _) as [st|e] eqn:H;
    [|vm_compute in H; inversion H].
  destruct (readiness_flag_spec (rt := R) _ _ _ _ H) as (_ & Hf).
  destruct (coerce_schema_inv _ _ _ _ H) as (d & nd & al & Hd & _ & _ & ->).
  inversion Hd; subst d.
  apply (Hf ltac:(vm_compute; reflexivity)).
  - vm_compute. intros X; inversion X.
  - vm_compute. reflexivity.
Defined.

(** X15 at a candidate who gives a second answer once. *)
Lemma interview_collects_witness :
  exists r s',
    interview_loop (rt := R) 5 5 (entry sample_console readonly_world)
    = Some (r, s')
    /\ net s' = readonly_world.
Proof.
  destruct (RunFacts.interview_collects_answers (rt := R) 5 5 sample_console
              readonly_world ltac:(lia)) as (r & s' & H & Hn & _).
  exists r, s'. split; [exact H | exact Hn].
Defined.


(** X17 at the Mistral backend without its key, the model summary
    switched off. *)
Lemma run_needs_client_witness :
  match run_stages (rt := R) keyless_config 5 Missing Missing sample_exn_str 5
          sample_console readonly_world with
  | Some (r, s) => r = Raised (Propagated RuntimeError) /\ net s = readonly_world
  | None => False
  end.
Proof.
  destruct (run_stages _ _ _ _ _ _ _ _) as [[r s]|] eqn:H;
    [|vm_compute in H; inversion H].
  destruct (RunFacts.run_needs_client (rt := R) keyless_config 5 Missing Missing
              sample_exn_str 5 sample_console readonly_world RuntimeError r s
              ltac:(vm_compute; reflexivity) H) as (_ & Hn & Hr).
  split; [|exact Hn].
  apply (proj1 (Hr ltac:(vm_compute; lia))). reflexivity.
Defined.

(** X18 at the same candidate: the answer to the second question is
    stored and the summary does not hold it. *)
Lemma motivation_witness :
  match run_stages (rt := R) openai_config 5 Missing Missing sample_exn_str 5
          sample_console readonly_world with
  | Some (Returned res, s) =>
    why_lunartech (raw_answers (summary_json res)) = []
    /\ answers_get (session_answers_of (session_obj res)) (lit "why_company")
       = Some (lit "I like the mentors")
  | _ => False
  end.
Proof.
  destruct (run_stages _ _ _ _ _ _ _ _) as [[[res|e] s]|] eqn:H;
    [|vm_compute in H; inversion H|vm_compute in H; inversion H].
  destruct (RunFacts.motivation_never_reaches_summary (rt := R) _ _ _ _ _ _ _ _ _ _ H)
    as (_ & Hw & _).
  split; [exact Hw|]. vm_compute in H. inversion H. vm_compute. reflexivity.
Defined.

(** X19 at a first answer that is too short: the transcript holds it,
    the session holds the second one. *)
Lemma round_transcript_witness :
  match interview_round (rt := R) 5 (entry brief_console readonly_world) with
  | (Returned _, s') =>
    (exists ts, logger_lines s' = [transcript_line (rt := R) ts (lit "user") (lit "hm")])
    /\ answers_get (answers (agent s')) (lit "background")
       = Some (lit "Ten years of nursing")
  | _ => False
  end.
Proof.
  destruct (interview_round _ _) as [[u|e] s'] eqn:H;
    [|vm_compute in H; inversion H].
  destruct (RunFacts.round_transcript (rt := R) 5
              (entry brief_console readonly_world)
              {| key := lit "background";
                 text := lit "Tell us your background and journey. What inspires you to pursue data science or AI?" |}
              (lit "hm") [lit "Ten years of nursing"] u s'
              ltac:(vm_compute; reflexivity) ltac:(vm_compute; reflexivity) H)
    as (ts1 & ts2 & Hl).
  split.
  - exists ts1. rewrite Hl. vm_compute. reflexivity.
  - clear Hl. vm_compute in H. inversion H. vm_compute. reflexivity.
Defined.

End MoreExamples.

